(** * data_analyzer: chunked CSV ingestion, profiling and querying

    A shallow embedding of [src/data_analyzer.py] (class [DataAnalyzer]).
    The program is a thin driver over two libraries, pandas and SQLAlchemy;
    the parts of their documented behaviour that the driver relies on are
    modelled here as executable definitions:

    - a CSV file is a header and a list of tokenised lines; a line with no
      token is a blank line, which the pandas parser skips but which Python's
      line iteration counts;
    - a [DataFrame] is column-major: an index length and typed [Series];
    - the relational store is a finite map from table names to tables, with
      a schedule of write faults standing for the failures the store may
      answer with, what it leaves of a table whose replacement it rejected,
      and a journal of the [to_sql] calls it received;
    - Python's exceptions are an error result that keeps the world reached
      so far (no rollback);
    - a generator is the finite script of what it does between resumptions;
    - chunk objects live on a small heap and are reclaimed when no local
      variable of the reader's or the loader's frame refers to them.

    The driver is called without extra keyword arguments, as every caller
    in the repository does. *)

From Stdlib Require Import ZArith QArith Lia.
From stdpp Require Import gmap strings list fin_maps.
Local Close Scope Q_scope.

(** ** Exceptions *)

Inductive exn :=
| IOError            (* the file cannot be opened *)
| EmptyDataError     (* pandas: no columns to parse *)
| FormatError        (* pandas: a line has more fields than the header *)
| ZeroDivisionError
| ValueError         (* pandas: table already exists under if_exists='fail' *)
| WriteError         (* the store rejected a write *)
| QueryError.        (* the store rejected a query *)

Inductive result (A : Type) : Type :=
| Ok (a : A)
| Raise (e : exn).
Arguments Ok {A} a.
Arguments Raise {A} e.

(** ** Tabular data *)

Inductive cell :=
| CInt (z : Z)
| CText (s : string)
| CEmpty.            (* missing value, NaN *)

#[global] Instance cell_eq_dec : EqDecision cell.
Proof. solve_decision. Defined.

Inductive dtype := Object | Int64 | Int32 | Int16 | Int8 | Float64 | Category.

#[global] Instance dtype_eq_dec : EqDecision dtype.
Proof. solve_decision. Defined.

Record Series := { sname : string; sdtype : dtype; svalues : list cell }.

(** [index_len] is what [len(df)] returns. *)
Record DataFrame := { index_len : nat; series : list Series }.

Definition len (df : DataFrame) : nat := index_len df.

Definition columns (df : DataFrame) : list string := sname <$> series df.

(** The rows of a frame, as [to_sql] inserts them. *)
Definition records (df : DataFrame) : list (list cell) :=
  (λ k, (λ s, nth k (svalues s) CEmpty) <$> series df) <$> seq 0 (index_len df).

(** ** Files *)

Record CsvFile := { header : list string; body : list (list cell) }.

(** [sum(1 for _ in open(file_path))]: the header line and every body line. *)
Definition line_count (f : CsvFile) : nat := S (length (body f)).

(** The lines pandas parses as data rows (blank lines are skipped). *)
Definition data_rows (f : CsvFile) : list (list cell) :=
  filter (λ r, r ≠ []) (body f).

(** ** pandas: parsing *)

Definition in_int64 (z : Z) : bool :=
  ((-9223372036854775808 <=? z) && (z <=? 9223372036854775807))%Z.

Definition is_int64_cell (c : cell) : bool :=
  match c with CInt z => in_int64 z | _ => false end.

Definition is_numeric_cell (c : cell) : bool :=
  match c with CInt _ | CEmpty => true | CText _ => false end.

(** Type inference of one column of one parsed block.  A block without
    rows gives [object] columns. *)
Definition infer_dtype (vals : list cell) : dtype :=
  match vals with
  | [] => Object
  | _ => if forallb is_int64_cell vals then Int64
         else if forallb is_numeric_cell vals then Float64
         else Object
  end.

Definition column_at (i : nat) (rows : list (list cell)) : list cell :=
  (λ r, nth i r CEmpty) <$> rows.

Definition parse_frame (hdr : list string) (rows : list (list cell)) : DataFrame :=
  {| index_len := length rows;
     series := imap (λ i name,
                 {| sname := name;
                    sdtype := infer_dtype (column_at i rows);
                    svalues := column_at i rows |}) hdr |}.

Definition too_long (hdr : list string) (r : list cell) : bool :=
  length hdr <? length r.

(** How pandas iterators ([TextFileReader] with [chunksize], and the
    [chunksize] iterator of [read_sql_query]) cut their source: each
    read takes up to [size] rows; the first read always returns a block,
    even when the source has no rows (the parser's first-chunk case gives
    an empty frame with the header's columns; the query iterator yields one
    empty frame when it has read no data); later reads stop at exhaustion.
    [fuel] bounds the number of reads; [batches] gives enough of it. *)
Fixpoint pull {A} (fuel size : nat) (first : bool) (buf : list A) : list (list A) :=
  match fuel with
  | 0 => []
  | S fuel' =>
      match buf with
      | [] => if first then [[]] else []
      | _ => take size buf :: pull fuel' size false (drop size buf)
      end
  end.

Definition batches {A} (size : nat) (buf : list A) : list (list A) :=
  pull (S (length buf)) size true buf.

(** [pd.read_csv(path, nrows=k)] on an opened file. *)
Definition pd_read_csv_nrows (f : CsvFile) (k : nat) : result DataFrame :=
  match header f with
  | [] => Raise EmptyDataError
  | hdr =>
      let rows := take k (data_rows f) in
      if existsb (too_long hdr) rows then Raise FormatError
      else Ok (parse_frame hdr rows)
  end.

(** ** Generators *)

Inductive LogRecord :=
| InfoProcessing (path : string) (chunk_size : nat)
| ErrorReadingCsv (e : exn)
| InfoAnalyzing (sample_size : nat) (path : string)
| InfoSampleComplete
| ErrorAnalyzing (e : exn)
| InfoSaved (total_rows : nat) (table : string)
| ErrorSaving (e : exn)
| InfoExecuting (query : string)
| ErrorExecuting (e : exn).

(** What a generator does, in order, as its consumer resumes it. *)
Inductive Generator (A : Type) : Type :=
| GLog (m : LogRecord) (k : Generator A)
| GYield (a : A) (k : Generator A)
| GReturn
| GRaise (e : exn).
Arguments GLog {A} m k.
Arguments GYield {A} a k.
Arguments GReturn {A}.
Arguments GRaise {A} e.

(** [list(g)]: the values yielded, and the exception that ended the
    iteration if one did. *)
Fixpoint yields {A} (g : Generator A) : list A :=
  match g with
  | GLog _ k => yields k
  | GYield a k => a :: yields k
  | GReturn | GRaise _ => []
  end.

Fixpoint ending {A} (g : Generator A) : option exn :=
  match g with
  | GLog _ k | GYield _ k => ending k
  | GReturn => None
  | GRaise e => Some e
  end.

(** The iterator [pd.read_csv(path, chunksize=n)] returns: one frame per
    block, the tokenizer failing at the block that holds a long line. *)
Fixpoint yield_frames (hdr : list string) (blocks : list (list (list cell)))
  : Generator DataFrame :=
  match blocks with
  | [] => GReturn
  | b :: blocks' =>
      if existsb (too_long hdr) b then GRaise FormatError
      else GYield (parse_frame hdr b) (yield_frames hdr blocks')
  end.

Definition pd_read_csv_chunks (f : CsvFile) (chunksize : nat) : Generator DataFrame :=
  match header f with
  | [] => GRaise EmptyDataError
  | hdr => yield_frames hdr (batches chunksize (data_rows f))
  end.

(** [try: ... except Exception as e: logger.error(...); raise] around a
    generator body. *)
Fixpoint logged (on_error : exn → LogRecord) {A} (g : Generator A) : Generator A :=
  match g with
  | GLog m k => GLog m (logged on_error k)
  | GYield a k => GYield a (logged on_error k)
  | GReturn => GReturn
  | GRaise e => GLog (on_error e) (GRaise e)
  end.

(** ** The analyzer *)

Record DataAnalyzer := { chunk_size : nat }.

(** [read_csv_chunked]: nothing runs before the first resumption; the file
    is then scanned once for its line count, and the progress total
    [total_lines // chunk_size] is computed before pandas is called. *)
Definition read_csv_chunked (self : DataAnalyzer) (files : gmap string CsvFile)
    (file_path : string) : Generator DataFrame :=
  logged ErrorReadingCsv
    match files !! file_path with
    | None => GRaise IOError
    | Some f =>
        let total_lines := line_count f in
        match chunk_size self with
        | 0 => GRaise ZeroDivisionError
        | S _ =>
            let total_chunks := total_lines / chunk_size self in
            GLog (InfoProcessing file_path (chunk_size self))
                 (pd_read_csv_chunks f (chunk_size self))
        end
    end.

(** ** The type optimizer *)

(** [Series.nunique()]: distinct values, missing ones dropped. *)
Definition nunique (vals : list cell) : nat :=
  length (remove_dups (filter (λ c, c ≠ CEmpty) vals)).

Fixpoint ints (vals : list cell) : list Z :=
  match vals with
  | [] => []
  | CInt z :: vals' => z :: ints vals'
  | _ :: vals' => ints vals'
  end.

(** [Series.min()] and [Series.max()] of an integer column; [None] is the
    NaN pandas returns for a column without values. *)
Definition series_min (vals : list cell) : option Z :=
  match ints vals with
  | [] => None
  | z :: zs => Some (foldr Z.min z zs)
  end.

Definition series_max (vals : list cell) : option Z :=
  match ints vals with
  | [] => None
  | z :: zs => Some (foldr Z.max z zs)
  end.

(** [m >= b] and [m <= b]; every comparison with NaN is false. *)
Definition ge_bound (m : option Z) (b : Z) : bool :=
  match m with Some v => (b <=? v)%Z | None => false end.

Definition le_bound (m : option Z) (b : Z) : bool :=
  match m with Some v => (v <=? b)%Z | None => false end.

Definition bits_of (dt : dtype) : option Z :=
  match dt with
  | Int64 => Some 64%Z
  | Int32 => Some 32%Z
  | Int16 => Some 16%Z
  | Int8 => Some 8%Z
  | _ => None
  end.

(** Two's-complement wrap-around of a conversion to a [bits]-bit integer. *)
Definition wrap (bits z : Z) : Z :=
  ((z + 2 ^ (bits - 1)) mod 2 ^ bits - 2 ^ (bits - 1))%Z.

Definition cast_cell (dt : dtype) (c : cell) : cell :=
  match bits_of dt, c with
  | Some b, CInt z => CInt (wrap b z)
  | _, _ => c
  end.

(** [s.astype(dt)] *)
Definition astype (dt : dtype) (s : Series) : Series :=
  {| sname := sname s; sdtype := dt; svalues := cast_cell dt <$> svalues s |}.

(** One turn of the loop of [optimize_dtypes]; [n] is [len(df)].  The
    test [nunique / n < 0.5] is a true division of two Python ints. *)
Definition optimize_column (n : nat) (s : Series) : result Series :=
  match sdtype s with
  | Object =>
      match n with
      | 0 => Raise ZeroDivisionError
      | S _ =>
          if 2 * nunique (svalues s) <? n then Ok (astype Category s)
          else Ok s
      end
  | Int64 =>
      let mn := series_min (svalues s) in
      let mx := series_max (svalues s) in
      if ge_bound mn (-128) && le_bound mx 127 then Ok (astype Int8 s)
      else if ge_bound mn (-32768) && le_bound mx 32767 then Ok (astype Int16 s)
      else if ge_bound mn (-2147483648) && le_bound mx 2147483647
           then Ok (astype Int32 s)
      else Ok s
  | _ => Ok s
  end.

Fixpoint optimize_columns (n : nat) (cols : list Series) : result (list Series) :=
  match cols with
  | [] => Ok []
  | s :: cols' =>
      match optimize_column n s with
      | Raise e => Raise e
      | Ok s' =>
          match optimize_columns n cols' with
          | Raise e => Raise e
          | Ok r => Ok (s' :: r)
          end
      end
  end.

Definition optimize_dtypes (df : DataFrame) : result DataFrame :=
  match optimize_columns (len df) (series df) with
  | Raise e => Raise e
  | Ok cols => Ok {| index_len := index_len df; series := cols |}
  end.

(** ** The relational store *)

Record Table := { t_columns : list string; t_rows : list (list cell) }.

Inductive IfExists := Fail | Replace | Append.

Record WriteRecord :=
  { w_table : string; w_mode : IfExists; w_rows : nat; w_ok : bool }.

(** What a rejected [to_sql(..., if_exists='replace')] leaves of the table
    it was to replace.  pandas drops the table, creates it again and inserts
    the rows; how far the call got, and whether the store undoes the drop
    and the creation together with the failed insert, is the store's
    business. *)
Inductive Residue :=
| Untouched     (* rejected before the drop, or rolled back as a whole *)
| Dropped       (* the table was dropped and not created again *)
| Recreated.    (* the table was dropped and created again, without rows *)

(** [faults]: the answers the store will give to the coming writes, [true]
    for a failure (whatever its cause: the connection, a lock, a value the
    store cannot hold), success when the schedule is exhausted.  [journal]:
    every [to_sql] call received so far.  [on_failure]: what this store
    leaves of the target of a rejected replace. *)
Record Database :=
  { tables : gmap string Table; faults : list bool; journal : list WriteRecord;
    on_failure : Residue }.

Definition insert_frame (df : DataFrame) (if_exists : IfExists)
    (old : option Table) : result Table :=
  match if_exists, old with
  | Fail, Some _ => Raise ValueError
  | Append, Some tb =>
      Ok {| t_columns := t_columns tb; t_rows := t_rows tb ++ records df |}
  | _, _ => Ok {| t_columns := columns df; t_rows := records df |}
  end.

(** The tables after a rejected call.  The rows of a chunk are inserted in
    one transaction, which the failure rolls back: a rejected append leaves
    the table with the rows it had.  A rejected replace leaves of its
    target what the store's [on_failure] says. *)
Definition after_failure (r : Residue) (df : DataFrame) (name : string)
    (if_exists : IfExists) (tbls : gmap string Table) : gmap string Table :=
  match if_exists, r with
  | Replace, Dropped => delete name tbls
  | Replace, Recreated => <[name := {| t_columns := columns df; t_rows := [] |}]> tbls
  | _, _ => tbls
  end.

(** [df.to_sql(name, engine, if_exists=..., index=False)] *)
Definition db_to_sql (df : DataFrame) (name : string) (if_exists : IfExists)
    (d : Database) : result unit * Database :=
  let entry ok :=
    {| w_table := name; w_mode := if_exists; w_rows := len df; w_ok := ok |} in
  match faults d with
  | true :: fl =>
      (Raise WriteError,
       {| tables := after_failure (on_failure d) df name if_exists (tables d);
          faults := fl; journal := journal d ++ [entry false];
          on_failure := on_failure d |})
  | fl =>
      match insert_frame df if_exists (tables d !! name) with
      | Raise e =>
          (Raise e,
           {| tables := tables d; faults := tail fl;
              journal := journal d ++ [entry false]; on_failure := on_failure d |})
      | Ok tb =>
          (Ok (),
           {| tables := <[name := tb]> (tables d); faults := tail fl;
              journal := journal d ++ [entry true]; on_failure := on_failure d |})
      end
  end.

(** ** Chunk objects in memory *)

(** [gen_chunk] and [ldr_chunk] are the local variable [chunk] of the frame
    of [read_csv_chunked] and of the frame of [save_to_db_chunked]; [live]
    holds the chunk objects allocated and not yet reclaimed; [peak] is the
    largest number of them that were live together. *)
Record Memory :=
  { gen_chunk : option nat; ldr_chunk : option nat;
    live : list nat; next_obj : nat; peak : nat }.

Definition referenced (g l : option nat) (o : nat) : bool :=
  bool_decide (g = Some o) || bool_decide (l = Some o).

(** Reference counting: an object no variable names is reclaimed at once. *)
Definition rebind (g l : option nat) (m : Memory) : Memory :=
  {| gen_chunk := g; ldr_chunk := l;
     live := filter (λ o, referenced g l o) (live m);
     next_obj := next_obj m; peak := peak m |}.

(** The reader builds the frame of the next chunk. *)
Definition materialize (m : Memory) : nat * Memory :=
  let o := next_obj m in
  (o, {| gen_chunk := gen_chunk m; ldr_chunk := ldr_chunk m;
         live := live m ++ [o]; next_obj := S o;
         peak := peak m `max` length (live m ++ [o]) |}).

(** ** The world and its monad *)

Record World :=
  { fs : gmap string CsvFile; db : Database; log : list LogRecord; mem : Memory }.

Definition M (A : Type) : Type := World → result A * World.

Definition ret {A} (a : A) : M A := λ w, (Ok a, w).

Definition raise {A} (e : exn) : M A := λ w, (Raise e, w).

Definition lift {A} (r : result A) : M A := λ w, (r, w).

Definition bind {A B} (m : M A) (k : A → M B) : M B :=
  λ w, match m w with
       | (Ok a, w') => k a w'
       | (Raise e, w') => (Raise e, w')
       end.

Definition try_except {A} (m : M A) (handler : exn → M A) : M A :=
  λ w, match m w with
       | (Ok a, w') => (Ok a, w')
       | (Raise e, w') => handler e w'
       end.

Notation "'let*' x ':=' m 'in' k" := (bind m (λ x, k))
  (at level 10, x name, m at level 100, k at level 200).
Notation "'exec' m 'in' k" := (bind m (λ _, k))
  (at level 10, m at level 100, k at level 200).

Definition logger (r : LogRecord) : M unit :=
  λ w, (Ok (), {| fs := fs w; db := db w; log := log w ++ [r]; mem := mem w |}).

Definition open_file (file_path : string) : M CsvFile :=
  λ w, match fs w !! file_path with
       | Some f => (Ok f, w)
       | None => (Raise IOError, w)
       end.

Definition to_sql (df : DataFrame) (name : string) (if_exists : IfExists) : M unit :=
  λ w, let '(r, d) := db_to_sql df name if_exists (db w) in
       (r, {| fs := fs w; db := d; log := log w; mem := mem w |}).

Definition on_memory {A} (f : Memory → A * Memory) : M A :=
  λ w, let '(a, m) := f (mem w) in
       (Ok a, {| fs := fs w; db := db w; log := log w; mem := m |}).

(** The generator's side of a yield: [for chunk in pd.read_csv(...)] asks
    the reader for the next frame while [chunk] still names the previous
    one, then rebinds [chunk]. *)
Definition gen_next_chunk : M nat :=
  let* o := on_memory materialize in
  exec on_memory (λ m, ((), rebind (Some o) (ldr_chunk m) m)) in
  ret o.

(** The generator finished: its frame and its [chunk] go away. *)
Definition gen_exit : M unit :=
  on_memory (λ m, ((), rebind None (ldr_chunk m) m)).

(** [for chunk in ...] and [del chunk] in the loader's frame;
    [gc.collect()] finds nothing that reference counting left behind. *)
Definition ldr_bind (o : option nat) : M unit :=
  on_memory (λ m, ((), rebind (gen_chunk m) o m)).

Definition gc_collect : M unit :=
  on_memory (λ m, ((), rebind (gen_chunk m) (ldr_chunk m) m)).

(** ** The table loader *)

Inductive pyvalue := PyNone | PyInt (n : Z).

Fixpoint load_loop (table_name : string) (g : Generator DataFrame)
    (first_chunk : bool) (total_rows : nat) : M nat :=
  match g with
  | GLog r k => exec logger r in load_loop table_name k first_chunk total_rows
  | GRaise e => raise e
  | GReturn => exec gen_exit in ret total_rows
  | GYield df k =>
      let* o := gen_next_chunk in
      exec ldr_bind (Some o) in
      let* chunk := lift (optimize_dtypes df) in
      exec to_sql chunk table_name (if first_chunk then Replace else Append) in
      let total_rows := total_rows + len chunk in
      exec ldr_bind None in
      exec gc_collect in
      load_loop table_name k false total_rows
  end.

(** [save_to_db_chunked]: the function has no [return] statement. *)
Definition save_to_db_chunked (self : DataAnalyzer) (file_path table_name : string)
    (if_exists : IfExists) : M pyvalue :=
  try_except
    (λ w, (let* total_rows :=
             load_loop table_name (read_csv_chunked self (fs w) file_path) true 0 in
           exec logger (InfoSaved total_rows table_name) in
           ret PyNone) w)
    (λ e, exec logger (ErrorSaving e) in raise e).

(** ** The sample profiler *)

Record Analysis :=
  { analysis_sample_size : nat;                 (* key sample_size: len(sample_df) *)
    column_types : list (string * dtype);
    missing_values : list (string * nat);
    memory_usage : list (string * Q);           (* MB per column *)
    sample_data : list (string * list cell);
    estimated_total_rows : nat;
    estimated_memory_usage : Q }.

(** [a / b] on Python ints; floats are read as the rationals they stand for. *)
Definition true_div (a b : nat) : result Q :=
  match b with
  | 0 => Raise ZeroDivisionError
  | S _ => Ok (inject_Z (Z.of_nat a) / inject_Z (Z.of_nat b))%Q
  end.

(** [sum(d.values())] *)
Definition sum_values (d : list (string * Q)) : Q :=
  foldl (λ acc kv, (acc + kv.2)%Q) 0%Q d.

Section SampleProfiler.

(** [Series.memory_usage(deep=True)], in bytes: internal to pandas. *)
Context (deep_bytes : Series → N).

Definition analyze_sample (file_path : string) (sample_size : nat) : M Analysis :=
  try_except
    (exec logger (InfoAnalyzing sample_size file_path) in
     let* f := open_file file_path in
     let* sample_df := lift (pd_read_csv_nrows f sample_size) in
     let usage :=
       (λ s, (sname s, (inject_Z (Z.of_N (deep_bytes s)) / inject_Z (1024 ^ 2))%Q))
         <$> series sample_df in
     let* f' := open_file file_path in
     let total_lines := line_count f' - 1 in
     let* factor := lift (true_div total_lines sample_size) in
     exec logger InfoSampleComplete in
     ret {| analysis_sample_size := len sample_df;
            column_types := (λ s, (sname s, sdtype s)) <$> series sample_df;
            missing_values :=
              (λ s, (sname s, length (filter (λ c, c = CEmpty) (svalues s))))
                <$> series sample_df;
            memory_usage := usage;
            sample_data := (λ s, (sname s, take 5 (svalues s))) <$> series sample_df;
            estimated_total_rows := total_lines;
            estimated_memory_usage := (sum_values usage * factor)%Q |})
    (λ e, exec logger (ErrorAnalyzing e) in raise e).

End SampleProfiler.

(** ** The query executor *)

Record ResultSet := { rs_columns : list string; rs_rows : list (list cell) }.

(** What [query_data] returns: a frame, or an iterator of frames. *)
Inductive QueryResult :=
| Full (rs : ResultSet)
| Paged (pages : list ResultSet).

Definition count_star : string := "COUNT(" +:+ "*" +:+ ")".

Definition count_query (table_name : string) : string :=
  "SELECT " +:+ count_star +:+ " FROM " +:+ table_name.

Definition select_all_query (table_name : string) : string :=
  "SELECT * FROM " +:+ table_name.

Section QueryExecutor.

(** The store's evaluation of a SQL text over its tables. *)
Context (execute : string → gmap string Table → result ResultSet).

(** [pd.read_sql_query(query, engine, chunksize=n)]: the statement is
    executed at once, the rows are fetched [n] at a time. *)
Definition read_sql_query (query : string) (chunksize : option nat) : M QueryResult :=
  λ w, match execute query (tables (db w)) with
       | Raise e => (Raise e, w)
       | Ok rs =>
           match chunksize with
           | Some n =>
               (Ok (Paged ((λ b, {| rs_columns := rs_columns rs; rs_rows := b |})
                             <$> batches n (rs_rows rs))), w)
           | None => (Ok (Full rs), w)
           end
       end.

(** [if chunksize:] is false for [None] and for [0]. *)
Definition query_data (query : string) (chunksize : option nat) : M QueryResult :=
  try_except
    (exec logger (InfoExecuting query) in
     match chunksize with
     | Some (S n) => read_sql_query query (Some (S n))
     | _ => read_sql_query query None
     end)
    (λ e, exec logger (ErrorExecuting e) in raise e).

End QueryExecutor.

(** ** Vocabulary of the specification *)

(** ceil(a / b) *)
Definition ceil_div (a b : nat) : nat := (a + b - 1) / b.

(** A data row as the parser reads it against a header of [width] names:
    fields that are missing at the end of the line are missing values. *)
Definition fill_row (width : nat) (r : list cell) : list cell :=
  (λ i, nth i r CEmpty) <$> seq 0 width.

(** [z] fits in [bits] signed bits. *)
Definition fits (bits z : Z) : Prop :=
  (- 2 ^ (bits - 1) ≤ z ≤ 2 ^ (bits - 1) - 1)%Z.

(** The criterion in the words of the specification: max(|min|, |max|)
    fits the target width. *)
Definition magnitude_fits (bits : Z) (vals : list cell) : Prop :=
  match series_min vals, series_max vals with
  | Some mn, Some mx => fits bits (Z.max (Z.abs mn) (Z.abs mx))
  | _, _ => False
  end.

(** The write mode the loader passes for its [i]-th chunk, and the journal
    entry of that call. *)
Definition load_mode (i : nat) : IfExists :=
  match i with 0 => Replace | S _ => Append end.

Definition load_entry (table_name : string) (mode : IfExists) (ok : bool)
    (chunk : DataFrame) : WriteRecord :=
  {| w_table := table_name; w_mode := mode; w_rows := len chunk; w_ok := ok |}.

(** ** Views used in the proofs *)

(** The records a generator logs when it is run to its end. *)
Fixpoint script_logs {A} (g : Generator A) : list LogRecord :=
  match g with
  | GLog r k => r :: script_logs k
  | GYield _ k => script_logs k
  | GReturn | GRaise _ => []
  end.

(** The loop of the loader as the store sees it: the chunks in the order
    they are yielded, and how the iteration ends. *)
Fixpoint write_chunks (table_name : string) (chunks : list DataFrame)
    (stop : option exn) (first_chunk : bool) (total_rows : nat) (d : Database)
  : result nat * Database :=
  match chunks with
  | [] => (match stop with Some e => Raise e | None => Ok total_rows end, d)
  | df :: chunks' =>
      match optimize_dtypes df with
      | Raise e => (Raise e, d)
      | Ok chunk =>
          match db_to_sql chunk table_name (if first_chunk then Replace else Append) d with
          | (Raise e, d') => (Raise e, d')
          | (Ok _, d') =>
              write_chunks table_name chunks' stop false (total_rows + len chunk) d'
          end
      end
  end.

(** A table with rows added at its end. *)
Definition append_rows (tb : Table) (rows : list (list cell)) : Table :=
  {| t_columns := t_columns tb; t_rows := t_rows tb ++ rows |}.

(** The memory between two turns of the loader's loop: the loader names no
    chunk, and the only chunk alive is the one the generator names. *)
Definition settled (m : Memory) : Prop :=
  ldr_chunk m = None ∧
  match gen_chunk m with
  | None => live m = []
  | Some o => live m = [o] ∧ o < next_obj m
  end.

(** Memory when the loader holds the chunk just read, and when it has
    dropped it again. *)
Definition mem_holding (m : Memory) : Memory :=
  let '(o, m1) := materialize m in
  let m2 := rebind (Some o) (ldr_chunk m1) m1 in
  rebind (gen_chunk m2) (Some o) m2.

Definition mem_released (m : Memory) : Memory :=
  let m1 := rebind (gen_chunk m) None m in
  rebind (gen_chunk m1) (ldr_chunk m1) m1.

(** ** Sample data *)

Definition fresh_memory : Memory :=
  {| gen_chunk := None; ldr_chunk := None; live := []; next_obj := 0; peak := 0 |}.

Definition world_with (files : gmap string CsvFile) (tbls : gmap string Table)
    (fl : list bool) : World :=
  {| fs := files;
     db := {| tables := tbls; faults := fl; journal := []; on_failure := Untouched |};
     log := [];
     mem := fresh_memory |}.

(** Five data rows and one blank line. *)
Definition ticks_csv : CsvFile :=
  {| header := ["Ticker"; "Volume"];
     body := [ [CText "AAA"; CInt 10]; [CText "AAA"; CInt 200];
               [CText "BBB"; CInt (-128)]; [];
               [CText "AAA"; CInt 40000]; [CText "CCC"; CInt 7] ] |}.

(** Five data rows, no blank line. *)
Definition prices_csv : CsvFile :=
  {| header := ["Ticker"; "Close"];
     body := [ [CText "AAA"; CInt 10]; [CText "AAA"; CInt 11];
               [CText "BBB"; CInt 7]; [CText "BBB"; CInt 8];
               [CText "CCC"; CInt 300] ] |}.


(** A header and nothing else. *)
Definition header_only_csv : CsvFile := {| header := ["Ticker"; "Volume"]; body := [] |}.

Definition analyzer2 : DataAnalyzer := {| chunk_size := 2 |}.

Definition sample_files : gmap string CsvFile :=
  {[ "ticks.csv" := ticks_csv; "prices.csv" := prices_csv;
     "empty.csv" := header_only_csv ]}.


(** Integer columns at the limits of 8 bits. *)
Definition boundary_frame : DataFrame :=
  {| index_len := 2;
     series := [ {| sname := "lo"; sdtype := Int64; svalues := [CInt (-128); CInt 127] |};
                 {| sname := "hi"; sdtype := Int64; svalues := [CInt (-128); CInt 128] |} ] |}.

Definition min_int8_frame : DataFrame :=
  {| index_len := 1;
     series := [ {| sname := "v"; sdtype := Int64; svalues := [CInt (-128)] |} ] |}.

Definition old_table : Table :=
  {| t_columns := ["Ticker"]; t_rows := [[CText "OLD"]; [CText "OLDER"]] |}.

(** A store dialect that answers two statements. *)
Definition demo_execute (query : string) (tbls : gmap string Table) : result ResultSet :=
  if String.prefix (count_query "") query then
    match tbls !! String.substring 21 (String.length query - 21) query with
    | Some tb =>
        Ok {| rs_columns := [count_star];
              rs_rows := [[CInt (Z.of_nat (length (t_rows tb)))]] |}
    | None => Raise QueryError
    end
  else if String.prefix (select_all_query "") query then
    match tbls !! String.substring 14 (String.length query - 14) query with
    | Some tb => Ok {| rs_columns := t_columns tb; rs_rows := t_rows tb |}
    | None => Raise QueryError
    end
  else Raise QueryError.

(** * Facts *)

(** ** Cutting a list into blocks *)

Lemma ceil_div_le a b k : 0 < b → ceil_div a b ≤ k ↔ a ≤ k * b.
Proof.
  intros Hb. unfold ceil_div.
  pose proof (Nat.div_mod_eq (a + b - 1) b) as Hdm.
  pose proof (Nat.mod_upper_bound (a + b - 1) b ltac:(lia)) as Hm.
  split; intros H; nia.
Qed.

Section Blocks.
Context {A : Type}.
Implicit Types (buf : list A) (n fuel i : nat).

Lemma pull_lookup n fuel buf i :
  0 < n → length buf ≤ fuel →
  pull fuel n false buf !! i =
    if decide (i * n < length buf) then Some (take n (drop (i * n) buf)) else None.
Proof.
  intros Hn. revert buf i.
  induction fuel as [|fuel IH]; intros buf i Hlen.
  - destruct buf as [|x buf]; [|simpl in Hlen; lia].
    cbn [pull]. case_decide as Hi; [simpl in Hi; lia|done].
  - destruct buf as [|x buf].
    { cbn [pull]. case_decide as Hi; [simpl in Hi; lia|done]. }
    cbn [pull]. destruct i as [|i].
    + cbn [lookup list_lookup]. case_decide as Hi; [done|simpl in Hi; lia].
    + rewrite lookup_cons. rewrite IH.
      2:{ rewrite length_drop. simpl in *. lia. }
      rewrite length_drop, drop_drop.
      replace (S i * n) with (n + i * n) by lia.
      repeat case_decide; try done; lia.
Qed.

Lemma batches_nil n : batches n ([] : list A) = [[]].
Proof. reflexivity. Qed.

Lemma batches_pull n buf : buf ≠ [] → batches n buf = pull (S (length buf)) n false buf.
Proof. by destruct buf. Qed.

Lemma batches_lookup n buf i :
  0 < n → buf ≠ [] →
  batches n buf !! i =
    if decide (i * n < length buf) then Some (take n (drop (i * n) buf)) else None.
Proof.
  intros Hn Hne. rewrite batches_pull by done. apply pull_lookup; lia.
Qed.

Lemma batches_length n buf :
  0 < n → buf ≠ [] → length (batches n buf) = ceil_div (length buf) n.
Proof.
  intros Hn Hne.
  assert (∀ i, i < length (batches n buf) ↔ i < ceil_div (length buf) n) as Hiff.
  { intros i. rewrite <-lookup_lt_is_Some, batches_lookup by done.
    pose proof (ceil_div_le (length buf) n i Hn).
    case_decide; split; intros H'; try lia.
    - by eexists.
    - by destruct H'. }
  destruct (Nat.lt_trichotomy (length (batches n buf)) (ceil_div (length buf) n))
    as [Hlt|[?|Hlt]]; [|done|].
  - apply Hiff in Hlt. lia.
  - apply Hiff in Hlt. lia.
Qed.

Lemma batches_concat n buf : 0 < n → concat (batches n buf) = buf.
Proof.
  intros Hn. destruct buf as [|x buf]; [done|].
  rewrite batches_pull by done.
  assert (∀ fuel (l : list A), length l ≤ fuel → concat (pull fuel n false l) = l) as Hgen.
  { induction fuel as [|fuel IH]; intros l Hl.
    - destruct l; [done|simpl in Hl; lia].
    - destruct l as [|y l]; [done|]. cbn [pull concat].
      rewrite IH; [apply take_drop|].
      rewrite length_drop. simpl in *. lia. }
  apply Hgen. lia.
Qed.

Lemma batches_block_length n buf i b :
  0 < n → buf ≠ [] → batches n buf !! i = Some b →
  1 ≤ length b ≤ n ∧ (S i < length (batches n buf) → length b = n).
Proof.
  intros Hn Hne Hb.
  pose proof (batches_lookup n buf (S i) Hn Hne) as Hnext.
  rewrite batches_lookup in Hb by done.
  destruct (decide (i * n < length buf)) as [Hi|Hi]; [|done]. injection Hb as <-.
  rewrite length_take, length_drop. split; [lia|].
  intros Hlt. apply lookup_lt_is_Some in Hlt. rewrite Hnext in Hlt.
  case_decide; [lia|by destruct Hlt].
Qed.
End Blocks.

(** ** Frames *)

Lemma records_length df : length (records df) = index_len df.
Proof. unfold records. by rewrite length_fmap, length_seq. Qed.

Lemma parse_frame_columns hdr rows : columns (parse_frame hdr rows) = hdr.
Proof.
  unfold columns, parse_frame; cbn [series].
  rewrite fmap_imap. apply list_eq; intros i.
  rewrite list_lookup_imap. by destruct (hdr !! i).
Qed.

Lemma tabulate_nth {A B} (g : A → B) (l : list A) (d : A) :
  (λ k, g (nth k l d)) <$> seq 0 (length l) = g <$> l.
Proof.
  apply list_eq; intros k. rewrite !list_lookup_fmap.
  destruct (decide (k < length l)) as [Hk|Hk].
  - rewrite lookup_seq_lt by done. cbn.
    destruct (lookup_lt_is_Some_2 l k Hk) as [x Hx].
    by rewrite Hx, (nth_lookup_Some _ _ _ _ Hx).
  - rewrite lookup_seq_ge, lookup_ge_None_2 by lia. done.
Qed.

Lemma parse_frame_records hdr rows :
  records (parse_frame hdr rows) = fill_row (length hdr) <$> rows.
Proof.
  unfold records, parse_frame; cbn [series index_len].
  rewrite <-(tabulate_nth (fill_row (length hdr)) rows []).
  apply list_fmap_ext; intros j k Hk. apply lookup_seq in Hk as [Hjk Hk].
  cbn in Hjk; subst j.
  rewrite fmap_imap. unfold fill_row. rewrite <-imap_seq_0.
  apply imap_ext; intros i name _. cbn.
  unfold column_at. rewrite !nth_lookup, list_lookup_fmap.
  destruct (lookup_lt_is_Some_2 rows k Hk) as [r Hr]. rewrite Hr. cbn.
  by rewrite nth_lookup.
Qed.

(** ** The type optimizer keeps names and values *)

Lemma wrap_id b z : (0 < b)%Z → fits b z → wrap b z = z.
Proof.
  intros Hb [Hlo Hhi]. unfold wrap.
  assert (2 ^ b = 2 * 2 ^ (b - 1))%Z as Hpow.
  { rewrite <-Z.pow_succ_r by lia. f_equal. lia. }
  rewrite Z.mod_small; lia.
Qed.

Lemma ints_elem z vals : CInt z ∈ vals → z ∈ ints vals.
Proof.
  induction vals as [|c vals IH]; intros Hin; [by apply elem_of_nil in Hin|].
  apply elem_of_cons in Hin as [<-|Hin].
  - cbn. left.
  - destruct c; cbn; [right|..]; auto.
Qed.

Lemma ints_of_ints zs : ints (CInt <$> zs) = zs.
Proof. induction zs as [|z zs IH]; [done|]. cbn. by rewrite IH. Qed.

Lemma foldr_min_le z zs x : x ∈ z :: zs → (foldr Z.min z zs ≤ x)%Z.
Proof.
  induction zs as [|y zs IH]; intros Hin.
  - apply list_elem_of_singleton in Hin as ->. cbn. lia.
  - cbn. apply elem_of_cons in Hin as [->|Hin].
    + assert (foldr Z.min z zs ≤ z)%Z by (apply IH; left). lia.
    + apply elem_of_cons in Hin as [->|Hin]; [lia|].
      assert (foldr Z.min z zs ≤ x)%Z by (apply IH; by right). lia.
Qed.

Lemma foldr_max_ge z zs x : x ∈ z :: zs → (x ≤ foldr Z.max z zs)%Z.
Proof.
  induction zs as [|y zs IH]; intros Hin.
  - apply list_elem_of_singleton in Hin as ->. cbn. lia.
  - cbn. apply elem_of_cons in Hin as [->|Hin].
    + assert (z ≤ foldr Z.max z zs)%Z by (apply IH; left). lia.
    + apply elem_of_cons in Hin as [->|Hin]; [lia|].
      assert (x ≤ foldr Z.max z zs)%Z by (apply IH; by right). lia.
Qed.

Lemma foldr_min_elem z zs : foldr Z.min z zs ∈ z :: zs.
Proof.
  induction zs as [|y zs IH]; [left|]. cbn.
  destruct (Z.min_spec y (foldr Z.min z zs)) as [[_ ->]|[_ ->]].
  - right; left.
  - apply elem_of_cons in IH as [->|IH]; [left|right; by right].
Qed.

Lemma foldr_max_elem z zs : foldr Z.max z zs ∈ z :: zs.
Proof.
  induction zs as [|y zs IH]; [left|]. cbn.
  destruct (Z.max_spec y (foldr Z.max z zs)) as [[_ ->]|[_ ->]].
  - apply elem_of_cons in IH as [->|IH]; [left|right; by right].
  - right; left.
Qed.

(** The bounds the optimizer tests are bounds of every integer of the column. *)
Lemma bounds_fit b lo hi vals z :
  lo = (- 2 ^ (b - 1))%Z → hi = (2 ^ (b - 1) - 1)%Z →
  ge_bound (series_min vals) lo && le_bound (series_max vals) hi = true →
  CInt z ∈ vals → fits b z.
Proof.
  intros -> -> Hg Hin. apply ints_elem in Hin.
  apply andb_true_iff in Hg as [Hmin Hmax].
  unfold series_min, series_max, ge_bound, le_bound in *.
  destruct (ints vals) as [|y ys]; [done|].
  apply Z.leb_le in Hmin, Hmax.
  pose proof (foldr_min_le y ys z Hin). pose proof (foldr_max_ge y ys z Hin).
  unfold fits. lia.
Qed.

Lemma astype_values_id dt s :
  (∀ b z, bits_of dt = Some b → CInt z ∈ svalues s → wrap b z = z) →
  svalues (astype dt s) = svalues s.
Proof.
  intros H. unfold astype; cbn [svalues].
  rewrite <-(list_fmap_id (svalues s)) at 2.
  apply list_fmap_ext; intros i c Hc. unfold cast_cell.
  destruct (bits_of dt) as [b|] eqn:Hb; [|done].
  destruct c as [z| |]; try done. cbn. f_equal. apply (H b z eq_refl).
  by apply list_elem_of_lookup_2 in Hc.
Qed.

Lemma optimize_column_keeps n s s' :
  optimize_column n s = Ok s' → sname s' = sname s ∧ svalues s' = svalues s.
Proof.
  unfold optimize_column. intros H.
  destruct (sdtype s).
  - destruct n; [done|].
    destruct (2 * nunique (svalues s) <? S n); injection H as <-; [|done].
    split; [done|]. by apply astype_values_id.
  - destruct (ge_bound _ (-128) && _) eqn:H8.
    { injection H as <-. split; [done|]. apply astype_values_id.
      intros b z [= <-] Hin. apply wrap_id; [lia|].
      by eapply (bounds_fit 8). }
    destruct (ge_bound _ (-32768) && _) eqn:H16.
    { injection H as <-. split; [done|]. apply astype_values_id.
      intros b z [= <-] Hin. apply wrap_id; [lia|].
      by eapply (bounds_fit 16). }
    destruct (ge_bound _ (-2147483648) && _) eqn:H32.
    { injection H as <-. split; [done|]. apply astype_values_id.
      intros b z [= <-] Hin. apply wrap_id; [lia|].
      by eapply (bounds_fit 32). }
    by injection H as <-.
  - by injection H as <-.
  - by injection H as <-.
  - by injection H as <-.
  - by injection H as <-.
  - by injection H as <-.
Qed.

Lemma optimize_columns_lookup n cols cols' :
  optimize_columns n cols = Ok cols' →
  length cols' = length cols ∧
  ∀ i s, cols !! i = Some s →
         ∃ s', cols' !! i = Some s' ∧ optimize_column n s = Ok s'.
Proof.
  revert cols'. induction cols as [|c cols IH]; intros cols' H.
  - injection H as <-. split; [done|]. intros i s Hs. by rewrite lookup_nil in Hs.
  - cbn in H. destruct (optimize_column n c) as [c'|] eqn:Hc; [|done].
    destruct (optimize_columns n cols) as [r|] eqn:Hr; [|done].
    injection H as <-. destruct (IH r eq_refl) as [Hlen Hlk].
    split; [cbn; lia|]. intros [|i] s Hs.
    + injection Hs as <-. by exists c'.
    + by apply Hlk.
Qed.

Lemma optimize_dtypes_keeps df df' :
  optimize_dtypes df = Ok df' →
  len df' = len df ∧ columns df' = columns df ∧
  svalues <$> series df' = svalues <$> series df ∧
  records df' = records df.
Proof.
  unfold optimize_dtypes. intros H.
  destruct (optimize_columns (len df) (series df)) as [cols|] eqn:Hc; [|done].
  injection H as <-. apply optimize_columns_lookup in Hc as [Hlen Hlk].
  assert (sname <$> cols = sname <$> series df ∧
          svalues <$> cols = svalues <$> series df) as [Hn Hv].
  { split; apply list_eq; intros i; rewrite !list_lookup_fmap;
      destruct (series df !! i) as [s|] eqn:Hs.
    - destruct (Hlk i s Hs) as (s' & -> & Hs'). cbn.
      by destruct (optimize_column_keeps _ _ _ Hs') as [-> _].
    - rewrite lookup_ge_None_2; [done|]. apply lookup_ge_None in Hs. lia.
    - destruct (Hlk i s Hs) as (s' & -> & Hs'). cbn.
      by destruct (optimize_column_keeps _ _ _ Hs') as [_ ->].
    - rewrite lookup_ge_None_2; [done|]. apply lookup_ge_None in Hs. lia. }
  repeat split; try done.
  unfold records; cbn [series index_len].
  apply list_fmap_ext; intros _ k _.
  change (λ s, nth k (svalues s) CEmpty) with ((λ v, nth k v CEmpty) ∘ svalues).
  rewrite !list_fmap_compose. by rewrite Hv.
Qed.

(** A chunk with a row is always optimized. *)
Lemma optimize_dtypes_total df :
  0 < len df → ∃ df', optimize_dtypes df = Ok df'.
Proof.
  intros Hlen. unfold optimize_dtypes.
  assert (∀ cols, ∃ r, optimize_columns (len df) cols = Ok r) as Hall.
  { induction cols as [|s cols [r Hr]]; [by eexists|]. cbn.
    assert (∃ s', optimize_column (len df) s = Ok s') as [s' ->].
    { unfold optimize_column. destruct (len df) as [|n]; [lia|].
      repeat (case_match; try by eexists). }
    rewrite Hr. by eexists. }
  destruct (Hall (series df)) as [r ->]. by eexists.
Qed.

(** ** The narrowing decision *)

Lemma fits_mono b b' z : (0 < b ≤ b')%Z → fits b z → fits b' z.
Proof.
  intros Hb [Hlo Hhi]. unfold fits.
  assert (2 ^ (b - 1) ≤ 2 ^ (b' - 1))%Z by (apply Z.pow_le_mono_r; lia). lia.
Qed.

Lemma Forall_fits_bounds b z zs :
  Forall (fits b) (z :: zs) ↔
  (- 2 ^ (b - 1) ≤ foldr Z.min z zs ∧ foldr Z.max z zs ≤ 2 ^ (b - 1) - 1)%Z.
Proof.
  split.
  - intros Hall. rewrite Forall_forall in Hall.
    destruct (Hall _ (foldr_min_elem z zs)) as [? _].
    destruct (Hall _ (foldr_max_elem z zs)) as [_ ?]. done.
  - intros [Hlo Hhi]. apply Forall_forall; intros x Hx.
    pose proof (foldr_min_le z zs x Hx). pose proof (foldr_max_ge z zs x Hx).
    unfold fits. lia.
Qed.

Lemma guard_spec b lo hi zs :
  lo = (- 2 ^ (b - 1))%Z → hi = (2 ^ (b - 1) - 1)%Z →
  ge_bound (series_min (CInt <$> zs)) lo && le_bound (series_max (CInt <$> zs)) hi = true
  ↔ zs ≠ [] ∧ Forall (fits b) zs.
Proof.
  intros -> ->. unfold series_min, series_max. rewrite ints_of_ints.
  destruct zs as [|z zs]; cbn [ge_bound le_bound].
  { split; [done|]. intros [Hne _]. by destruct Hne. }
  rewrite andb_true_iff, !Z.leb_le, Forall_fits_bounds.
  split; [intros [? ?]; by repeat split|]. by intros [_ [? ?]].
Qed.

Lemma optimize_column_int64 n s zs :
  sdtype s = Int64 → svalues s = CInt <$> zs →
  ∃ s', optimize_column n s = Ok s' ∧
    (sdtype s' = Int8 ↔ zs ≠ [] ∧ Forall (fits 8) zs) ∧
    (sdtype s' = Int16 ↔ zs ≠ [] ∧ ¬ Forall (fits 8) zs ∧ Forall (fits 16) zs) ∧
    (sdtype s' = Int32 ↔ zs ≠ [] ∧ ¬ Forall (fits 16) zs ∧ Forall (fits 32) zs) ∧
    (sdtype s' = Int64 ↔ zs = [] ∨ ¬ Forall (fits 32) zs).
Proof.
  intros Hdt Hv. unfold optimize_column. rewrite Hdt, Hv.
  pose proof (guard_spec 8 (-128) 127 zs eq_refl eq_refl) as H8.
  pose proof (guard_spec 16 (-32768) 32767 zs eq_refl eq_refl) as H16.
  pose proof (guard_spec 32 (-2147483648) 2147483647 zs eq_refl eq_refl) as H32.
  assert (Forall (fits 8) zs → Forall (fits 16) zs) as M1.
  { intros Hall. eapply Forall_impl; [exact Hall|]. intros z. apply fits_mono. lia. }
  assert (Forall (fits 16) zs → Forall (fits 32) zs) as M2.
  { intros Hall. eapply Forall_impl; [exact Hall|]. intros z. apply fits_mono. lia. }
  assert (zs = [] ∨ zs ≠ []) as Hnil by (destruct zs; auto).
  destruct (ge_bound _ (-128) && _).
  { eexists; split; [done|]. cbn [astype sdtype].
    destruct H8 as [H8 _]. specialize (H8 eq_refl) as [? ?].
    repeat split; try done; try (intros; tauto); try tauto. }
  destruct H8 as [_ H8].
  assert (¬ (zs ≠ [] ∧ Forall (fits 8) zs)) as N8 by (intros ?%H8; done).
  destruct (ge_bound _ (-32768) && _).
  { eexists; split; [done|]. cbn [astype sdtype].
    destruct H16 as [H16 _]. specialize (H16 eq_refl) as [? ?].
    repeat split; try done; try (intros; tauto); try tauto. }
  destruct H16 as [_ H16].
  assert (¬ (zs ≠ [] ∧ Forall (fits 16) zs)) as N16 by (intros ?%H16; done).
  destruct (ge_bound _ (-2147483648) && _).
  { eexists; split; [done|]. cbn [astype sdtype].
    destruct H32 as [H32 _]. specialize (H32 eq_refl) as [? ?].
    repeat split; try done; try (intros; tauto); try tauto. }
  destruct H32 as [_ H32].
  assert (¬ (zs ≠ [] ∧ Forall (fits 32) zs)) as N32 by (intros ?%H32; done).
  eexists; split; [done|]. rewrite Hdt.
  repeat split; try done; try (intros; tauto); try tauto.
Qed.

(** C4 (as amended).  In a chunk that [optimize_dtypes] returns for, an
    [int64] column that holds at least one value is narrowed to 8 bits iff
    every value lies in [-128, 127], else to 16 bits iff every value lies in
    [-32768, 32767], else to 32 bits iff every value lies in
    [-2^31, 2^31 - 1], else it keeps its width; a column without values
    keeps its width.  All values fit a width iff the column's minimum is at
    least [-2^(w-1)] and its maximum at most [2^(w-1) - 1].  No value of any
    column is changed, and a chunk with a row is always returned for. *)
Theorem optimize_dtypes_narrows_int64 (df : DataFrame) (i : nat) (s : Series) (zs : list Z) :
  series df !! i = Some s → sdtype s = Int64 → svalues s = CInt <$> zs →
  (0 < len df → ∃ df', optimize_dtypes df = Ok df') ∧
  ∀ df', optimize_dtypes df = Ok df' →
    svalues <$> series df' = svalues <$> series df ∧
    ∃ s', series df' !! i = Some s' ∧ sname s' = sname s ∧ svalues s' = svalues s ∧
      (sdtype s' = Int8 ↔ zs ≠ [] ∧ Forall (fits 8) zs) ∧
      (sdtype s' = Int16 ↔ zs ≠ [] ∧ ¬ Forall (fits 8) zs ∧ Forall (fits 16) zs) ∧
      (sdtype s' = Int32 ↔ zs ≠ [] ∧ ¬ Forall (fits 16) zs ∧ Forall (fits 32) zs) ∧
      (sdtype s' = Int64 ↔ zs = [] ∨ ¬ Forall (fits 32) zs) ∧
      ∀ b mn mx, series_min (svalues s) = Some mn → series_max (svalues s) = Some mx →
        (Forall (fits b) zs ↔ (- 2 ^ (b - 1) ≤ mn ∧ mx ≤ 2 ^ (b - 1) - 1)%Z).
Proof.
  intros Hs Hdt Hv. split; [apply optimize_dtypes_total|].
  intros df' Hopt. split; [by apply optimize_dtypes_keeps|].
  unfold optimize_dtypes in Hopt.
  destruct (optimize_columns (len df) (series df)) as [cols|] eqn:Hc; [|done].
  injection Hopt as <-. cbn [series].
  apply optimize_columns_lookup in Hc as [_ Hlk].
  destruct (Hlk i s Hs) as (s' & Hs' & Hcol).
  destruct (optimize_column_int64 (len df) s zs Hdt Hv) as (s'' & Hcol' & H8 & H16 & H32 & H64).
  rewrite Hcol in Hcol'. injection Hcol' as <-.
  destruct (optimize_column_keeps _ _ _ Hcol) as [Hn Hvals].
  assert (∀ b mn mx, series_min (svalues s) = Some mn → series_max (svalues s) = Some mx →
            (Forall (fits b) zs ↔ (- 2 ^ (b - 1) ≤ mn ∧ mx ≤ 2 ^ (b - 1) - 1)%Z)) as Hmm.
  { intros b mn mx. rewrite Hv. unfold series_min, series_max. rewrite ints_of_ints.
    destruct zs as [|z zs]; [done|]. intros [= <-] [= <-].
    apply Forall_fits_bounds. }
  exists s'. by repeat (split; [done|]).
Qed.

Lemma optimize_dtypes_narrows_int64_witness :
  ∃ df' s', optimize_dtypes boundary_frame = Ok df' ∧ series df' !! 0 = Some s' ∧
            sdtype s' = Int8 ∧ svalues s' = [CInt (-128); CInt 127].
Proof.
  destruct (optimize_dtypes_narrows_int64 boundary_frame 0
              {| sname := "lo"; sdtype := Int64; svalues := [CInt (-128); CInt 127] |}
              [-128; 127]%Z eq_refl eq_refl eq_refl) as [Htot Hres].
  destruct (Htot ltac:(cbn; lia)) as [df' Hdf'].
  destruct (Hres df' Hdf') as (_ & s' & Hs' & _ & Hv & H8 & _).
  exists df', s'. split; [exact Hdf'|]. split; [exact Hs'|]. split; [|exact Hv].
  apply H8. split; [done|].
  repeat constructor; unfold fits; lia.
Defined.

(** C4, the claim as stated fails: a column whose only value is -128 is
    narrowed to 8 bits, and keeps its value, although max(|min|, |max|) = 128
    does not fit in 8 signed bits. *)
Lemma optimize_dtypes_magnitude_counterexample :
  optimize_dtypes min_int8_frame =
    Ok {| index_len := 1;
          series := [ {| sname := "v"; sdtype := Int8; svalues := [CInt (-128)] |} ] |}
  ∧ ¬ magnitude_fits 8 [CInt (-128)].
Proof.
  split; [reflexivity|]. unfold magnitude_fits, fits. cbn. lia.
Qed.

(** ** Chunks without rows *)

Lemma optimize_dtypes_zero_rows_object df s :
  len df = 0 → s ∈ series df → sdtype s = Object →
  optimize_dtypes df = Raise ZeroDivisionError.
Proof.
  intros Hlen Hin Hdt. unfold optimize_dtypes. rewrite Hlen.
  cut (optimize_columns 0 (series df) = Raise ZeroDivisionError); [by intros ->|].
  induction (series df) as [|c cols IH]; [by apply elem_of_nil in Hin|].
  cbn. destruct (optimize_column 0 c) as [c'|e] eqn:Hc.
  - apply elem_of_cons in Hin as [->|Hin].
    { unfold optimize_column in Hc. by rewrite Hdt in Hc. }
    by rewrite IH.
  - unfold optimize_column in Hc. by repeat case_match; simplify_eq.
Qed.

(** C6, the code at the failing input: the one chunk the reader yields for
    a file that has a header and no data row has zero rows and [object]
    columns, and [optimize_dtypes] raises [ZeroDivisionError] on it. *)
Theorem optimize_dtypes_zero_rows_raises :
  yields (read_csv_chunked analyzer2 sample_files "empty.csv")
    = [parse_frame (header header_only_csv) []]
  ∧ len (parse_frame (header header_only_csv) []) = 0
  ∧ optimize_dtypes (parse_frame (header header_only_csv) []) = Raise ZeroDivisionError.
Proof. repeat split; vm_compute; reflexivity. Qed.

(** ** The chunk reader *)

Lemma sum_list_lengths {A} (ls : list (list A)) :
  sum_list (length <$> ls) = length (concat ls).
Proof. induction ls as [|l ls IH]; [done|]. cbn. rewrite length_app. lia. Qed.

Lemma yields_logged {A} on_error (g : Generator A) : yields (logged on_error g) = yields g.
Proof. induction g; cbn; congruence. Qed.

Lemma ending_logged {A} on_error (g : Generator A) : ending (logged on_error g) = ending g.
Proof. induction g; cbn; congruence. Qed.




(** Every block is the slice of the rows at its position. *)
Lemma batches_slice {A} n (buf : list A) i b :
  0 < n → batches n buf !! i = Some b → b = take n (drop (i * n) buf).
Proof.
  intros Hn Hb. destruct buf as [|x buf].
  - destruct i as [|i]; [|done]. injection Hb as <-. by destruct n.
  - rewrite batches_lookup in Hb by done.
    destruct (decide _); [|done]. by injection Hb.
Qed.

Lemma read_csv_chunked_script self files file_path f :
  files !! file_path = Some f → header f ≠ [] → 0 < chunk_size self →
  read_csv_chunked self files file_path =
    GLog (InfoProcessing file_path (chunk_size self))
      (logged ErrorReadingCsv
         (yield_frames (header f) (batches (chunk_size self) (data_rows f)))).
Proof.
  intros Hf Hh Hn. unfold read_csv_chunked, pd_read_csv_chunks. rewrite Hf.
  destruct (chunk_size self); [lia|]. cbn. by destruct (header f).
Qed.





(** ** The loader, seen from the store *)

Ltac run_monad :=
  unfold bind, ret, raise, lift, logger, to_sql, on_memory, gen_next_chunk,
    gen_exit, ldr_bind, gc_collect, try_except; cbn.

Lemma load_loop_store table_name g first_chunk total_rows w :
  fs (load_loop table_name g first_chunk total_rows w).2 = fs w ∧
  ((load_loop table_name g first_chunk total_rows w).1,
   db (load_loop table_name g first_chunk total_rows w).2)
    = write_chunks table_name (yields g) (ending g) first_chunk total_rows (db w) ∧
  (∀ n, (load_loop table_name g first_chunk total_rows w).1 = Ok n →
        log (load_loop table_name g first_chunk total_rows w).2
          = log w ++ script_logs g).
Proof.
  revert first_chunk total_rows w.
  induction g as [r k IH|df k IH| |e]; intros first_chunk total_rows w.
  - cbn [load_loop yields ending script_logs]. run_monad.
    destruct (IH first_chunk total_rows
                {| fs := fs w; db := db w; log := log w ++ [r]; mem := mem w |})
      as (Hfs & Hdb & Hlog).
    split; [exact Hfs|]. split; [exact Hdb|].
    intros n Hn. rewrite (Hlog n Hn). cbn. by rewrite <-app_assoc.
  - cbn [load_loop yields ending script_logs write_chunks]. run_monad.
    destruct (optimize_dtypes df) as [chunk|e]; [|by cbn].
    cbn. destruct (db_to_sql chunk table_name _ (db w)) as [[[]|e] d'] eqn:Hsql; [|by cbn].
    cbn.
    match goal with |- context [load_loop _ k false ?t ?w1] =>
      destruct (IH false t w1) as (Hfs & Hdb & Hlog) end.
    split; [exact Hfs|]. split; [exact Hdb|]. exact Hlog.
  - cbn. run_monad. split; [done|]. split; [done|]. intros _ _. by rewrite app_nil_r.
  - cbn. run_monad. done.
Qed.

Lemma db_to_sql_fault chunk table_name mode d fl :
  faults d = true :: fl →
  db_to_sql chunk table_name mode d =
    (Raise WriteError,
     {| tables := after_failure (on_failure d) chunk table_name mode (tables d);
        faults := fl;
        journal := journal d ++ [load_entry table_name mode false chunk];
        on_failure := on_failure d |}).
Proof. intros Hf. unfold db_to_sql. by rewrite Hf. Qed.

Lemma db_to_sql_ok chunk table_name mode d u d' :
  db_to_sql chunk table_name mode d = (Ok u, d') →
  hd false (faults d) = false ∧
  faults d' = tail (faults d) ∧
  journal d' = journal d ++ [load_entry table_name mode true chunk] ∧
  ∃ tb, insert_frame chunk mode (tables d !! table_name) = Ok tb ∧
        tables d' = <[table_name := tb]> (tables d).
Proof.
  unfold db_to_sql. intros H.
  destruct (faults d) as [|[] fl] eqn:Hf; [| done |].
  - destruct (insert_frame chunk mode (tables d !! table_name)) as [tb|e]; [|done].
    simplify_eq. cbn [faults journal tables on_failure hd tail].
    split; [done|]. split; [done|]. split; [done|]. by exists tb.
  - destruct (insert_frame chunk mode (tables d !! table_name)) as [tb|e]; [|done].
    simplify_eq. cbn [faults journal tables on_failure hd tail].
    split; [done|]. split; [done|]. split; [done|]. by exists tb.
Qed.

Lemma db_to_sql_clear chunk table_name mode d :
  hd false (faults d) = false → mode ≠ Fail →
  ∃ tb, insert_frame chunk mode (tables d !! table_name) = Ok tb ∧
    db_to_sql chunk table_name mode d =
      (Ok (),
       {| tables := <[table_name := tb]> (tables d); faults := tail (faults d);
          journal := journal d ++ [load_entry table_name mode true chunk];
          on_failure := on_failure d |}).
Proof.
  intros Hf Hm. unfold db_to_sql.
  assert (∃ tb, insert_frame chunk mode (tables d !! table_name) = Ok tb) as [tb Htb].
  { unfold insert_frame. destruct mode; [done|by eexists|].
    destruct (tables d !! table_name); by eexists. }
  exists tb. split; [done|]. rewrite Htb.
  destruct (faults d) as [|[] fl]; try done.
Qed.

(** Whatever the outcome, the calls of one load carry the table's name, the
    first in replace mode and the later ones in append mode. *)
Lemma write_chunks_modes table_name chunks stop first_chunk total_rows d off :
  first_chunk = match off with 0 => true | S _ => false end →
  ∃ new, journal (write_chunks table_name chunks stop first_chunk total_rows d).2
           = journal d ++ new ∧
         ∀ i e, new !! i = Some e →
                w_table e = table_name ∧ w_mode e = load_mode (off + i).
Proof.
  revert first_chunk total_rows d off.
  induction chunks as [|df chunks IH]; intros first_chunk total_rows d off Hfirst.
  - exists []. cbn. rewrite app_nil_r. split; [done|]. intros i e Hi. by rewrite lookup_nil in Hi.
  - cbn [write_chunks]. destruct (optimize_dtypes df) as [chunk|e].
    2:{ exists []. cbn. rewrite app_nil_r. split; [done|].
        intros i e' Hi. by rewrite lookup_nil in Hi. }
    assert ((if first_chunk then Replace else Append) = load_mode off) as Hmode.
    { subst first_chunk. by destruct off. }
    rewrite Hmode.
    destruct (db_to_sql chunk table_name (load_mode off) d) as [[u|e] d'] eqn:Hsql.
    + apply db_to_sql_ok in Hsql as (_ & _ & Hj & _).
      destruct (IH false (total_rows + len chunk) d' (S off) eq_refl) as (new & Hnew & Hmodes).
      exists (load_entry table_name (load_mode off) true chunk :: new).
      rewrite Hnew, Hj, <-app_assoc. split; [done|].
      intros [|i] e' Hi.
      * injection Hi as <-. cbn. by rewrite Nat.add_0_r.
      * destruct (Hmodes i e' Hi) as [? ?]. by rewrite Nat.add_succ_r.
    + exists [load_entry table_name (load_mode off) false chunk].
      unfold db_to_sql in Hsql.
      destruct (faults d) as [|[] fl];
        try destruct (insert_frame chunk (load_mode off) (tables d !! table_name));
        try done; injection Hsql as <- <-; cbn; (split; [done|]);
        intros [|i] e' Hi; try done; injection Hi as <-; cbn; by rewrite Nat.add_0_r.
Qed.

(** A run of appends that all succeed. *)
Lemma write_chunks_append_ok table_name chunks stop total_rows d n d' tb :
  write_chunks table_name chunks stop false total_rows d = (Ok n, d') →
  tables d !! table_name = Some tb →
  stop = None ∧
  n = total_rows + sum_list (len <$> chunks) ∧
  tables d' = <[table_name := append_rows tb (concat (records <$> chunks))]> (tables d) ∧
  journal d' = journal d ++ (load_entry table_name Append true <$> chunks).
Proof.
  revert total_rows d tb.
  induction chunks as [|df chunks IH]; intros total_rows d tb Hrun Htb.
  - cbn in Hrun. destruct stop; [done|]. injection Hrun as <- <-.
    cbn. rewrite app_nil_r, Nat.add_0_r.
    repeat split; try done. unfold append_rows. rewrite app_nil_r.
    destruct tb. by rewrite insert_id.
  - cbn [write_chunks] in Hrun.
    destruct (optimize_dtypes df) as [chunk|e] eqn:Hopt; [|done].
    destruct (optimize_dtypes_keeps _ _ Hopt) as (Hlen & Hcols & _ & Hrec).
    destruct (db_to_sql chunk table_name Append d) as [[u|e] d1] eqn:Hsql; [|done].
    apply db_to_sql_ok in Hsql as (_ & _ & Hj & tb1 & Hins & Ht).
    rewrite Htb in Hins. cbn in Hins. injection Hins as <-.
    destruct (IH _ _ (append_rows tb (records chunk)) Hrun) as (Hstop & Hn & Htabs & Hjour).
    { rewrite Ht. apply lookup_insert_eq. }
    split; [done|]. split; [cbn; lia|]. split.
    + rewrite Htabs, Ht, insert_insert_eq. f_equal.
      unfold append_rows; cbn. by rewrite Hrec, <-app_assoc.
    + rewrite Hjour, Hj, <-app_assoc. cbn. unfold load_entry. by rewrite Hlen.
Qed.

(** A whole load that succeeds. *)
Lemma write_chunks_ok table_name df chunks stop total_rows d n d' :
  write_chunks table_name (df :: chunks) stop true total_rows d = (Ok n, d') →
  stop = None ∧
  n = total_rows + sum_list (len <$> df :: chunks) ∧
  tables d' = <[table_name := {| t_columns := columns df;
                                 t_rows := concat (records <$> df :: chunks) |}]> (tables d) ∧
  journal d' = journal d ++ load_entry table_name Replace true df
                            :: (load_entry table_name Append true <$> chunks).
Proof.
  intros Hrun. cbn [write_chunks] in Hrun.
  destruct (optimize_dtypes df) as [chunk|e] eqn:Hopt; [|done].
  destruct (optimize_dtypes_keeps _ _ Hopt) as (Hlen & Hcols & _ & Hrec).
  destruct (db_to_sql chunk table_name Replace d) as [[u|e] d1] eqn:Hsql; [|done].
  apply db_to_sql_ok in Hsql as (_ & _ & Hj & tb1 & Hins & Ht).
  assert (tb1 = {| t_columns := columns chunk; t_rows := records chunk |}) as ->.
  { unfold insert_frame in Hins. destruct (tables d !! table_name); by injection Hins. }
  edestruct write_chunks_append_ok as (Hstop & Hn & Htabs & Hjour); [exact Hrun| |].
  { rewrite Ht. apply lookup_insert_eq. }
  split; [done|]. split; [cbn; lia|]. split.
  - rewrite Htabs, Ht, insert_insert_eq. f_equal.
    unfold append_rows; cbn. by rewrite Hrec, Hcols.
  - rewrite Hjour, Hj, <-app_assoc. cbn. unfold load_entry. by rewrite Hlen.
Qed.

(** A run of appends whose [j]-th call is the first the store rejects. *)
Lemma write_chunks_append_fault table_name chunks stop total_rows d tb j cj rest :
  tables d !! table_name = Some tb →
  faults d = replicate j false ++ true :: rest →
  chunks !! j = Some cj →
  Forall (λ c, 0 < len c) chunks →
  ∃ d', write_chunks table_name chunks stop false total_rows d = (Raise WriteError, d') ∧
    tables d' = <[table_name := append_rows tb (concat (records <$> take j chunks))]> (tables d) ∧
    faults d' = rest ∧
    journal d' = journal d ++ (load_entry table_name Append true <$> take j chunks)
                           ++ [load_entry table_name Append false cj].
Proof.
  revert chunks total_rows d tb. induction j as [|j IH];
    intros chunks total_rows d tb Htb Hf Hj Hpos;
    destruct chunks as [|df chunks]; try done;
    apply Forall_cons in Hpos as [Hdf Hpos];
    destruct (optimize_dtypes_total df Hdf) as [chunk Hopt];
    destruct (optimize_dtypes_keeps _ _ Hopt) as (Hlen & Hcols & _ & Hrec);
    cbn [write_chunks]; rewrite Hopt.
  - injection Hj as <-. cbn in Hf. rewrite (db_to_sql_fault _ _ _ _ _ Hf).
    eexists; split; [done|]. cbn. split; [|split; [done|]].
    + unfold append_rows. rewrite app_nil_r. destruct tb. by rewrite insert_id.
    + unfold load_entry. by rewrite Hlen.
  - cbn in Hf, Hj.
    destruct (db_to_sql_clear chunk table_name Append d) as (tb1 & Hins & ->);
      [by rewrite Hf|done|].
    rewrite Htb in Hins. cbn in Hins. injection Hins as <-.
    edestruct (IH chunks (total_rows + len chunk)) as (d' & -> & Ht & Hfl & Hjr);
      [| |exact Hj|exact Hpos|].
    { cbn. apply lookup_insert_eq. }
    { cbn. by rewrite Hf. }
    exists d'. split; [done|]. cbn in Ht, Hjr. split; [|split; [done|]].
    + rewrite Ht, insert_insert_eq. f_equal. unfold append_rows; cbn.
      by rewrite Hrec, <-app_assoc.
    + rewrite Hjr, <-!app_assoc. cbn. unfold load_entry. by rewrite Hlen.
Qed.

(** ** The table loader *)

Lemma yield_frames_ending_none hdr blocks :
  ending (yield_frames hdr blocks) = None →
  yields (yield_frames hdr blocks) = parse_frame hdr <$> blocks.
Proof.
  induction blocks as [|b blocks IH]; [done|]. cbn.
  destruct (existsb (too_long hdr) b); [done|]. cbn. intros H. by rewrite IH.
Qed.

(** An iteration that ends normally read an opened file with a header,
    with a positive chunk size, and met no long line. *)
Lemma read_csv_chunked_ending_none self files file_path f :
  files !! file_path = Some f →
  ending (read_csv_chunked self files file_path) = None →
  0 < chunk_size self ∧ header f ≠ [] ∧
  yields (read_csv_chunked self files file_path)
    = parse_frame (header f) <$> batches (chunk_size self) (data_rows f).
Proof.
  intros Hf. unfold read_csv_chunked, pd_read_csv_chunks. rewrite Hf.
  destruct (chunk_size self) as [|n]; [done|].
  destruct (header f) as [|h hdr] eqn:Hh; [done|].
  cbn [logged ending yields]. rewrite ending_logged, yields_logged. intros He.
  split; [lia|]. split; [done|]. by apply yield_frames_ending_none.
Qed.

Lemma save_to_db_chunked_ok self file_path table_name if_exists w v w' :
  save_to_db_chunked self file_path table_name if_exists w = (Ok v, w') →
  v = PyNone ∧
  ∃ n w1, load_loop table_name (read_csv_chunked self (fs w) file_path) true 0 w = (Ok n, w1) ∧
          fs w' = fs w1 ∧ db w' = db w1 ∧ log w' = log w1 ++ [InfoSaved n table_name].
Proof.
  unfold save_to_db_chunked, try_except, bind, ret, logger, raise. 
  destruct (load_loop _ _ true 0 w) as [[n|e] w1]; cbn; [|done].
  intros [= <- <-]. split; [done|]. by exists n, w1.
Qed.

Lemma save_to_db_chunked_raise self file_path table_name if_exists w e w1 :
  load_loop table_name (read_csv_chunked self (fs w) file_path) true 0 w = (Raise e, w1) →
  save_to_db_chunked self file_path table_name if_exists w =
    (Raise e, {| fs := fs w1; db := db w1; log := log w1 ++ [ErrorSaving e]; mem := mem w1 |}).
Proof.
  intros H. unfold save_to_db_chunked, try_except, bind, ret, logger, raise.
  by rewrite H.
Qed.

Lemma concat_fmap_fmap {A B} (g : A → B) (ls : list (list A)) :
  concat ((fmap g : list A → list B) <$> ls) = g <$> concat ls.
Proof. induction ls as [|l ls IH]; [done|]. cbn. by rewrite fmap_app, IH. Qed.

(** What a completed load leaves in the store. *)
Lemma save_to_db_chunked_store self file_path table_name if_exists w v w' f :
  fs w !! file_path = Some f →
  save_to_db_chunked self file_path table_name if_exists w = (Ok v, w') →
  let chunks := yields (read_csv_chunked self (fs w) file_path) in
  0 < chunk_size self ∧ header f ≠ [] ∧
  chunks = parse_frame (header f) <$> batches (chunk_size self) (data_rows f) ∧
  (∃ c rest, chunks = c :: rest ∧
     journal (db w') = journal (db w) ++ load_entry table_name Replace true c
                         :: (load_entry table_name Append true <$> rest)) ∧
  tables (db w') =
    <[table_name := {| t_columns := header f;
                       t_rows := fill_row (length (header f)) <$> data_rows f |}]>
      (tables (db w)) ∧
  log w' = log w ++ script_logs (read_csv_chunked self (fs w) file_path)
                 ++ [InfoSaved (length (data_rows f)) table_name].
Proof.
  intros Hf Hsave chunks.
  apply save_to_db_chunked_ok in Hsave as (_ & n & w1 & Hloop & _ & Hdb & Hlog).
  pose proof (load_loop_store table_name (read_csv_chunked self (fs w) file_path) true 0 w)
    as (_ & Hproj & Hlogs).
  rewrite Hloop in Hproj, Hlogs. cbn [fst snd] in Hproj, Hlogs.
  fold chunks in Hproj. symmetry in Hproj.
  specialize (Hlogs n eq_refl).
  destruct chunks as [|c rest] eqn:Hchunks.
  { cbn in Hproj. destruct (ending _) eqn:He; [done|].
    destruct (read_csv_chunked_ending_none _ _ _ _ Hf He) as (Hn & _ & Hy).
    subst chunks. rewrite Hy in Hchunks.
    apply fmap_nil_inv in Hchunks.
    destruct (data_rows f) as [|r rows]; [done|].
    rewrite batches_pull in Hchunks by done. done. }
  apply write_chunks_ok in Hproj as (He & Hn & Htabs & Hjour).
  destruct (read_csv_chunked_ending_none _ _ _ _ Hf He) as (Hsize & Hhdr & Hy).
  subst chunks. rewrite Hchunks in Hy.
  split; [done|]. split; [done|]. split; [done|].
  split; [exists c, rest; split; [done|]; by rewrite Hdb|].
  assert (columns c = header f) as Hcols.
  { assert (columns <$> (c :: rest) = columns <$> (parse_frame (header f) <$>
              batches (chunk_size self) (data_rows f))) as Hc by (by rewrite Hy).
    destruct (batches (chunk_size self) (data_rows f)) as [|b bs]; [done|].
    cbn in Hc. injection Hc as -> _. apply parse_frame_columns. }
  assert (concat (records <$> c :: rest)
          = fill_row (length (header f)) <$> data_rows f) as Hrows.
  { rewrite Hy, <-list_fmap_compose.
    rewrite (list_fmap_ext _ (fmap (fill_row (length (header f)))
                                : list (list cell) → list (list cell))
               (batches (chunk_size self) (data_rows f))).
    2:{ intros i b _. cbn. apply parse_frame_records. }
    by rewrite concat_fmap_fmap, batches_concat. }
  split.
  - rewrite Hdb, Htabs. f_equal. by rewrite Hcols, Hrows.
  - rewrite Hlog, Hlogs, <-app_assoc. do 3 f_equal.
    rewrite Hn, Hy, <-list_fmap_compose.
    rewrite (list_fmap_ext _ length (batches (chunk_size self) (data_rows f))) by done.
    by rewrite sum_list_lengths, batches_concat.
Qed.

(** The table a completed load leaves does not depend on the chunk size. *)
Lemma save_to_db_chunked_chunk_size_independent self1 self2 file_path table_name
    if_exists1 if_exists2 w v1 v2 w1 w2 f :
  fs w !! file_path = Some f →
  save_to_db_chunked self1 file_path table_name if_exists1 w = (Ok v1, w1) →
  save_to_db_chunked self2 file_path table_name if_exists2 w = (Ok v2, w2) →
  tables (db w1) = tables (db w2).
Proof.
  intros Hf H1 H2.
  destruct (save_to_db_chunked_store _ _ _ _ _ _ _ _ Hf H1) as (_ & _ & _ & _ & -> & _).
  by destruct (save_to_db_chunked_store _ _ _ _ _ _ _ _ Hf H2) as (_ & _ & _ & _ & -> & _).
Qed.

Lemma query_data_full execute query w rs :
  execute query (tables (db w)) = Ok rs →
  (query_data execute query None w).1 = Ok (Full rs).
Proof.
  intros He. unfold query_data, read_sql_query, try_except, bind, logger.
  cbn [db]. by rewrite He.
Qed.

(** C1.  A completed load of a file with R data rows leaves the table with
    exactly the file's R rows, whatever the chunk size and whatever the table
    held before: the first chunk is written in replace mode and every later
    one in append mode, the lengths of the chunks sum to R, no other table is
    touched, and a [SELECT COUNT( * )] on the table then returns R. *)
Theorem save_to_db_chunked_row_count
    (execute : string → gmap string Table → result ResultSet)
    (self : DataAnalyzer) (file_path table_name : string) (if_exists : IfExists)
    (w w' : World) (v : pyvalue) (f : CsvFile) :
  fs w !! file_path = Some f →
  save_to_db_chunked self file_path table_name if_exists w = (Ok v, w') →
  (∀ tbls tb, tbls !! table_name = Some tb →
     ∃ cols, execute (count_query table_name) tbls =
               Ok {| rs_columns := cols;
                     rs_rows := [[CInt (Z.of_nat (length (t_rows tb)))]] |}) →
  let R := length (data_rows f) in
  let chunks := yields (read_csv_chunked self (fs w) file_path) in
  sum_list (len <$> chunks) = R ∧
  (∃ c rest, chunks = c :: rest ∧
     journal (db w') = journal (db w) ++ load_entry table_name Replace true c
                         :: (load_entry table_name Append true <$> rest)) ∧
  (∃ tb, tables (db w') !! table_name = Some tb ∧
         t_columns tb = header f ∧
         t_rows tb = fill_row (length (header f)) <$> data_rows f ∧
         length (t_rows tb) = R) ∧
  (∀ other, other ≠ table_name → tables (db w') !! other = tables (db w) !! other) ∧
  ∃ cols, (query_data execute (count_query table_name) None w').1 =
            Ok (Full {| rs_columns := cols; rs_rows := [[CInt (Z.of_nat R)]] |}).
Proof.
  intros Hf Hsave Hcount R chunks.
  destruct (save_to_db_chunked_store _ _ _ _ _ _ _ _ Hf Hsave)
    as (Hn & Hh & Hy & Hjour & Htabs & _).
  fold chunks in Hy, Hjour.
  assert (tables (db w') !! table_name =
          Some {| t_columns := header f;
                  t_rows := fill_row (length (header f)) <$> data_rows f |}) as Htb.
  { rewrite Htabs. apply lookup_insert_eq. }
  split.
  { rewrite Hy, <-list_fmap_compose.
    rewrite (list_fmap_ext _ length (batches (chunk_size self) (data_rows f))) by done.
    by rewrite sum_list_lengths, batches_concat. }
  split; [exact Hjour|]. split.
  { eexists. split; [exact Htb|]. cbn [t_columns t_rows].
    split; [done|]. split; [done|]. by rewrite length_fmap. }
  split.
  { intros other Hne. rewrite Htabs. by apply lookup_insert_ne. }
  destruct (Hcount _ _ Htb) as [cols Hq]. exists cols.
  rewrite (query_data_full _ _ _ _ Hq). cbn [t_rows]. by rewrite length_fmap.
Qed.

Lemma demo_execute_count tbls tb :
  tbls !! "t" = Some tb →
  ∃ cols, demo_execute (count_query "t") tbls =
            Ok {| rs_columns := cols;
                  rs_rows := [[CInt (Z.of_nat (length (t_rows tb)))]] |}.
Proof.
  intros H. exists [count_star]. unfold demo_execute.
  replace (String.prefix (count_query "") (count_query "t")) with true
    by reflexivity.
  replace (String.substring 21 (String.length (count_query "t") - 21) (count_query "t"))
    with "t" by reflexivity.
  by rewrite H.
Qed.

Lemma save_to_db_chunked_row_count_witness :
  ∃ w' cols, (query_data demo_execute (count_query "t") None w').1 =
               Ok (Full {| rs_columns := cols; rs_rows := [[CInt 5]] |}).
Proof.
  pose (w := world_with sample_files {[ "t" := old_table ]} []).
  destruct (save_to_db_chunked analyzer2 "ticks.csv" "t" Replace w) as [r w'] eqn:Hsave.
  assert (r = Ok PyNone) as -> by (vm_compute in Hsave; congruence).
  destruct (save_to_db_chunked_row_count demo_execute analyzer2 "ticks.csv" "t" Replace
              w w' PyNone ticks_csv eq_refl Hsave demo_execute_count)
    as (_ & _ & _ & _ & cols & Hq).
  exists w', cols. exact Hq.
Defined.

(** ** What the loader returns *)

Lemma write_chunks_total table_name chunks stop first_chunk total_rows d n d' :
  write_chunks table_name chunks stop first_chunk total_rows d = (Ok n, d') →
  n = total_rows + sum_list (len <$> chunks) ∧
  ∃ new, journal d' = journal d ++ new ∧
         sum_list (w_rows <$> new) = sum_list (len <$> chunks) ∧
         Forall (λ e, w_ok e = true) new.
Proof.
  revert first_chunk total_rows d.
  induction chunks as [|df chunks IH]; intros first_chunk total_rows d Hrun.
  - cbn in Hrun. destruct stop; [done|]. simplify_eq. cbn.
    split; [lia|]. exists []. by rewrite app_nil_r.
  - cbn [write_chunks] in Hrun.
    destruct (optimize_dtypes df) as [chunk|e] eqn:Hopt; [|done].
    destruct (optimize_dtypes_keeps _ _ Hopt) as (Hlen & _).
    destruct (db_to_sql chunk table_name _ d) as [[u|e] d1] eqn:Hsql; [|done].
    apply db_to_sql_ok in Hsql as (_ & _ & Hj & _).
    destruct (IH _ _ _ Hrun) as (Hn & new & Hnew & Hsum & Hok).
    split; [cbn; lia|].
    eexists (_ :: new). rewrite Hnew, Hj, <-app_assoc. split; [done|].
    split; [cbn; lia|]. by constructor.
Qed.

(** C5 (as amended).  A successful load returns no value ([None]); the total
    row count, the sum of the lengths of the chunks written, is what its last
    log record reports. *)
Theorem save_to_db_chunked_returns_none (self : DataAnalyzer)
    (file_path table_name : string) (if_exists : IfExists) (w w' : World) (v : pyvalue) :
  save_to_db_chunked self file_path table_name if_exists w = (Ok v, w') →
  v = PyNone ∧
  ∃ total new,
    last (log w') = Some (InfoSaved total table_name) ∧
    total = sum_list (len <$> yields (read_csv_chunked self (fs w) file_path)) ∧
    journal (db w') = journal (db w) ++ new ∧
    total = sum_list (w_rows <$> new) ∧
    Forall (λ e, w_ok e = true) new.
Proof.
  intros Hsave.
  apply save_to_db_chunked_ok in Hsave as (Hv & n & w1 & Hloop & _ & Hdb & Hlog).
  split; [done|].
  pose proof (load_loop_store table_name (read_csv_chunked self (fs w) file_path) true 0 w)
    as (_ & Hproj & _).
  rewrite Hloop in Hproj. cbn [fst snd] in Hproj. symmetry in Hproj.
  apply write_chunks_total in Hproj as (Hn & new & Hnew & Hsum & Hok).
  exists n, new. rewrite Hlog, last_snoc, Hdb.
  split; [done|]. split; [lia|]. split; [done|]. split; [lia|done].
Qed.

Lemma save_to_db_chunked_returns_none_witness :
  ∃ w', save_to_db_chunked analyzer2 "ticks.csv" "t" Replace
          (world_with sample_files ∅ []) = (Ok PyNone, w') ∧
        last (log w') = Some (InfoSaved 5 "t").
Proof.
  destruct (save_to_db_chunked analyzer2 "ticks.csv" "t" Replace
              (world_with sample_files ∅ [])) as [r w'] eqn:Hsave.
  assert (r = Ok PyNone) as -> by (vm_compute in Hsave; congruence).
  destruct (save_to_db_chunked_returns_none _ _ _ _ _ _ _ Hsave)
    as (_ & total & new & Hlast & Htotal & _).
  exists w'. split; [done|]. rewrite Hlast, Htotal. reflexivity.
Defined.

(** C5, the claim as stated fails: the load of a file with five data rows
    writes five rows and returns [None], not the count 5. *)
Lemma save_to_db_chunked_return_counterexample :
  let out := save_to_db_chunked analyzer2 "ticks.csv" "t" Replace
               (world_with sample_files ∅ []) in
  sum_list (w_rows <$> journal (db out.2)) = 5 ∧
  out.1 = Ok PyNone ∧
  out.1 ≠ Ok (PyInt 5).
Proof. vm_compute. repeat split; congruence. Qed.

(** ** A write that fails *)

Lemma yield_frames_lookup hdr blocks i c :
  yields (yield_frames hdr blocks) !! i = Some c →
  ∃ b, blocks !! i = Some b ∧ c = parse_frame hdr b.
Proof.
  revert i. induction blocks as [|b blocks IH]; intros i; [done|]. cbn.
  destruct (existsb (too_long hdr) b); [done|]. cbn.
  destruct i as [|i]; cbn.
  - intros [= <-]. by exists b.
  - apply IH.
Qed.

(** Every chunk read from a file that has data rows has a row, and carries
    the header's columns. *)
Lemma read_csv_chunked_chunk self files file_path f i c :
  files !! file_path = Some f → header f ≠ [] → 0 < chunk_size self →
  data_rows f ≠ [] →
  yields (read_csv_chunked self files file_path) !! i = Some c →
  0 < len c ∧ columns c = header f.
Proof.
  intros Hf Hh Hn Hrows Hc.
  rewrite (read_csv_chunked_script _ _ _ f) in Hc by done.
  cbn [yields] in Hc. rewrite yields_logged in Hc.
  apply yield_frames_lookup in Hc as (b & Hb & ->).
  split; [|apply parse_frame_columns].
  destruct (batches_block_length _ _ _ _ Hn Hrows Hb) as [[Hlo _] _].
  unfold len; cbn. lia.
Qed.

(** A load whose [k]-th call (counted from 0) is the first the store rejects. *)
Lemma write_chunks_fault table_name c0 chunks stop total_rows d k ck rest :
  faults d = replicate k false ++ true :: rest →
  (c0 :: chunks) !! k = Some ck →
  Forall (λ c, 0 < len c) (c0 :: chunks) →
  ∃ d', write_chunks table_name (c0 :: chunks) stop true total_rows d
          = (Raise WriteError, d') ∧
    faults d' = rest ∧
    tables d' =
      match k with
      | 0 => after_failure (on_failure d) c0 table_name Replace (tables d)
      | S _ => <[table_name := {| t_columns := columns c0;
                                  t_rows := concat (records <$> take k (c0 :: chunks)) |}]>
                 (tables d)
      end ∧
    journal d' = journal d ++
      match k with
      | 0 => []
      | S j => load_entry table_name Replace true c0
                 :: (load_entry table_name Append true <$> take j chunks)
      end ++ [load_entry table_name (load_mode k) false ck].
Proof.
  intros Hf Hk Hpos. apply Forall_cons in Hpos as [Hc0 Hpos].
  destruct (optimize_dtypes_total c0 Hc0) as [chunk Hopt].
  destruct (optimize_dtypes_keeps _ _ Hopt) as (Hlen & Hcols & _ & Hrec).
  cbn [write_chunks]. rewrite Hopt.
  destruct k as [|j].
  - injection Hk as <-. cbn in Hf. rewrite (db_to_sql_fault _ _ _ _ _ Hf).
    eexists; split; [done|]. cbn [faults tables journal]. split; [done|]. split.
    + unfold after_failure. by rewrite Hcols.
    + unfold load_entry. by rewrite Hlen.
  - cbn in Hf, Hk.
    destruct (db_to_sql_clear chunk table_name Replace d) as (tb1 & Hins & ->);
      [by rewrite Hf|done|].
    assert (tb1 = {| t_columns := columns chunk; t_rows := records chunk |}) as ->.
    { unfold insert_frame in Hins. destruct (tables d !! table_name); by injection Hins. }
    edestruct (write_chunks_append_fault table_name chunks stop (total_rows + len chunk))
      as (d' & -> & Ht & Hfl & Hjr); [| |exact Hk|exact Hpos|].
    { cbn. apply lookup_insert_eq. }
    { cbn. by rewrite Hf. }
    cbn [tables journal] in Ht, Hjr.
    exists d'. split; [done|]. split; [done|]. split.
    + rewrite Ht, insert_insert_eq. f_equal. unfold append_rows; cbn.
      by rewrite Hrec, Hcols.
    + rewrite Hjr, <-!app_assoc. cbn. unfold load_entry. by rewrite Hlen.
Qed.

(** C7 (as amended).  If the store rejects the write of chunk k+1 after
    accepting the writes of the k chunks before it, the load raises that
    [WriteError] to its caller after exactly k+1 calls (no retry, no further
    chunk) and touches no other table.  When k > 0 the accepted writes stay:
    the table holds exactly the rows of the first k chunks.  When k = 0 the
    rejected call is the replace, and the table is as the store leaves the
    target of a rejected replace: as it was before the load, dropped, or
    created again without rows. *)
Theorem save_to_db_chunked_write_failure (self : DataAnalyzer)
    (file_path table_name : string) (if_exists : IfExists) (w : World) (f : CsvFile)
    (k : nat) (rest : list bool) :
  fs w !! file_path = Some f → header f ≠ [] → 0 < chunk_size self →
  data_rows f ≠ [] →
  let chunks := yields (read_csv_chunked self (fs w) file_path) in
  k < length chunks →
  faults (db w) = replicate k false ++ true :: rest →
  ∃ w' c0 ck,
    save_to_db_chunked self file_path table_name if_exists w = (Raise WriteError, w') ∧
    chunks !! 0 = Some c0 ∧ chunks !! k = Some ck ∧
    fs w' = fs w ∧
    faults (db w') = rest ∧
    (∀ other, other ≠ table_name →
       tables (db w') !! other = tables (db w) !! other) ∧
    tables (db w') !! table_name =
      match k with
      | S _ => Some {| t_columns := columns c0;
                       t_rows := concat (records <$> take k chunks) |}
      | 0 =>
          match on_failure (db w) with
          | Untouched => tables (db w) !! table_name
          | Dropped => None
          | Recreated => Some {| t_columns := columns c0; t_rows := [] |}
          end
      end ∧
    journal (db w') = journal (db w) ++
      match take k chunks with
      | [] => []
      | c0 :: cs => load_entry table_name Replace true c0
                      :: (load_entry table_name Append true <$> cs)
      end ++ [load_entry table_name (load_mode k) false ck] ∧
    last (log w') = Some (ErrorSaving WriteError).
Proof.
  intros Hf Hh Hn Hrows chunks Hk Hfaults.
  destruct (lookup_lt_is_Some_2 chunks k Hk) as [ck Hck].
  assert (Forall (λ c, 0 < len c) chunks) as Hall.
  { apply Forall_lookup. intros i c Hc.
    by eapply (read_csv_chunked_chunk self (fs w) file_path f i c). }
  pose proof (load_loop_store table_name (read_csv_chunked self (fs w) file_path) true 0 w)
    as (Hfs & Hproj & _).
  fold chunks in Hproj.
  destruct chunks as [|c0 cs] eqn:Hchunks; [done|].
  destruct (write_chunks_fault table_name c0 cs
              (ending (read_csv_chunked self (fs w) file_path)) 0 (db w) k ck rest
              Hfaults Hck Hall) as (d' & Hrun & Hfl & Htabs & Hjour).
  rewrite Hrun in Hproj.
  destruct (load_loop table_name _ true 0 w) as [r w1] eqn:Hloop.
  cbn [fst snd] in Hproj, Hfs. injection Hproj as -> Hdb.
  rewrite (save_to_db_chunked_raise _ _ _ _ _ _ _ Hloop).
  eexists _, c0, ck. split; [done|]. cbn [fs db log].
  split; [done|]. split; [done|]. split; [done|]. rewrite Hdb.
  split; [done|]. split; [|split; [|split; [|apply last_snoc]]].
  - intros other Hother. rewrite Htabs. destruct k.
    + unfold after_failure. destruct (on_failure (db w)); [done| |].
      * by rewrite lookup_delete_ne.
      * by rewrite lookup_insert_ne.
    + by rewrite lookup_insert_ne.
  - rewrite Htabs. destruct k.
    + unfold after_failure. destruct (on_failure (db w)); [done| |].
      * apply lookup_delete_eq.
      * apply lookup_insert_eq.
    + apply lookup_insert_eq.
  - rewrite Hjour. by destruct k.
Qed.

Lemma save_to_db_chunked_write_failure_witness :
  ∃ w', save_to_db_chunked analyzer2 "ticks.csv" "t" Replace
          (world_with sample_files {[ "t" := old_table ]} [false; true; false])
          = (Raise WriteError, w') ∧
        faults (db w') = [false] ∧
        t_rows <$> tables (db w') !! "t"
          = Some [[CText "AAA"; CInt 10]; [CText "AAA"; CInt 200]].
Proof.
  destruct (save_to_db_chunked_write_failure analyzer2 "ticks.csv" "t" Replace
              (world_with sample_files {[ "t" := old_table ]} [false; true; false])
              ticks_csv 1 [false] eq_refl ltac:(discriminate) ltac:(cbn; lia)
              ltac:(discriminate) ltac:(vm_compute; lia) eq_refl)
    as (w' & c0 & ck & Hsave & Hc0 & _ & _ & Hfl & _ & Htabs & _).
  exists w'. split; [exact Hsave|]. split; [exact Hfl|].
  rewrite Htabs. reflexivity.
Defined.

(** C7, the claim as stated fails when the failing write is the first one:
    the store rejects the replace before it drops anything (a locked or
    read-only database, or a store that rolls the whole call back), no chunk
    has been written, and the table still holds the two rows it had before
    the load, which are rows of no chunk. *)
Lemma save_to_db_chunked_failed_replace_counterexample :
  let w := world_with sample_files {[ "t" := old_table ]} [true] in
  let out := save_to_db_chunked analyzer2 "ticks.csv" "t" Replace w in
  out.1 = Raise WriteError ∧
  filter (λ e, w_ok e = true) (journal (db out.2)) = [] ∧
  t_rows <$> tables (db out.2) !! "t" = Some [[CText "OLD"]; [CText "OLDER"]] ∧
  t_rows <$> tables (db out.2) !! "t" ≠ Some [].
Proof. vm_compute. repeat split; congruence. Qed.

(** ** The [if_exists] argument *)

Lemma save_to_db_chunked_db self file_path table_name if_exists w :
  db (save_to_db_chunked self file_path table_name if_exists w).2
    = db (load_loop table_name (read_csv_chunked self (fs w) file_path) true 0 w).2.
Proof.
  unfold save_to_db_chunked, try_except, bind, ret, logger, raise.
  by destruct (load_loop _ _ true 0 w) as [[n|e] w1].
Qed.

(** C10.  The [if_exists] argument has no effect: two runs that differ only
    in it give the same result and the same world, and in every run, however
    it ends, the first [to_sql] call is in replace mode and every later one
    in append mode. *)
Theorem save_to_db_chunked_ignores_if_exists (self : DataAnalyzer)
    (file_path table_name : string) (if_exists if_exists' : IfExists) (w : World) :
  save_to_db_chunked self file_path table_name if_exists w
    = save_to_db_chunked self file_path table_name if_exists' w ∧
  ∃ new,
    journal (db (save_to_db_chunked self file_path table_name if_exists w).2)
      = journal (db w) ++ new ∧
    ∀ i e, new !! i = Some e → w_table e = table_name ∧ w_mode e = load_mode i.
Proof.
  split; [reflexivity|].
  rewrite save_to_db_chunked_db.
  pose proof (load_loop_store table_name (read_csv_chunked self (fs w) file_path) true 0 w)
    as (_ & Hproj & _).
  destruct (write_chunks_modes table_name
              (yields (read_csv_chunked self (fs w) file_path))
              (ending (read_csv_chunked self (fs w) file_path)) true 0 (db w) 0 eq_refl)
    as (new & Hnew & Hmodes).
  rewrite <-Hproj in Hnew. cbn [snd] in Hnew. by exists new.
Qed.

(** ** The query executor *)

(** C8.  For every query and every page size n > 0, on one store state:
    when the unpaged call returns a result, the paged call returns pages of
    at most n rows each, with the result's columns, whose rows concatenate in
    order to exactly the rows of the unpaged result; when the unpaged call
    raises, the paged call raises the same error; the unpaged call does one
    or the other. *)
Theorem query_data_pages (execute : string → gmap string Table → result ResultSet)
    (query : string) (n : nat) (w : World) :
  0 < n →
  (∀ rs, (query_data execute query None w).1 = Ok (Full rs) →
     ∃ pages, (query_data execute query (Some n) w).1 = Ok (Paged pages) ∧
              Forall (λ p, length (rs_rows p) ≤ n ∧ rs_columns p = rs_columns rs) pages ∧
              concat (rs_rows <$> pages) = rs_rows rs) ∧
  (∀ e, (query_data execute query None w).1 = Raise e →
     (query_data execute query (Some n) w).1 = Raise e) ∧
  ((∃ rs, (query_data execute query None w).1 = Ok (Full rs)) ∨
   (∃ e, (query_data execute query None w).1 = Raise e)).
Proof.
  intros Hn. destruct n as [|n]; [lia|].
  unfold query_data, read_sql_query, try_except, bind, logger, raise. cbn [db].
  destruct (execute query (tables (db w))) as [rs|e]; cbn [fst].
  - split; [|split; [done|left; by exists rs]].
    intros rs' [= <-]. eexists. split; [done|]. split.
    + apply Forall_fmap, Forall_lookup. intros i b Hb. cbn.
      split; [|done]. apply batches_slice in Hb; [|lia]. rewrite Hb, length_take. lia.
    + rewrite <-list_fmap_compose.
      rewrite (list_fmap_ext _ id (batches (S n) (rs_rows rs))) by done.
      rewrite list_fmap_id. apply batches_concat. lia.
  - split; [done|]. split; [done|]. right. by exists e.
Qed.

Lemma query_data_pages_witness :
  ∃ pages, (query_data demo_execute (select_all_query "t") (Some 1)
              (world_with sample_files {[ "t" := old_table ]} [])).1 = Ok (Paged pages) ∧
           concat (rs_rows <$> pages) = [[CText "OLD"]; [CText "OLDER"]].
Proof.
  destruct (query_data_pages demo_execute (select_all_query "t") 1
              (world_with sample_files {[ "t" := old_table ]} []) ltac:(lia))
    as (Hfull & _ & _).
  destruct (Hfull {| rs_columns := ["Ticker"];
                     rs_rows := [[CText "OLD"]; [CText "OLDER"]] |} eq_refl)
    as (pages & Hp & _ & Hcat).
  by exists pages.
Defined.

(** ** The sample profiler *)

(** What the profiler computes, for every file and every sample size it
    returns for: the row estimate is the line count minus one, the sample
    holds the first rows up to the requested size, and the memory estimate
    scales the sample's footprint by the row estimate over the *requested*
    sample size. *)
Lemma analyze_sample_estimates (deep_bytes : Series → N) file_path sample_size w a w' f :
  fs w !! file_path = Some f →
  analyze_sample deep_bytes file_path sample_size w = (Ok a, w') →
  0 < sample_size ∧
  estimated_total_rows a = line_count f - 1 ∧
  analysis_sample_size a = sample_size `min` length (data_rows f) ∧
  estimated_memory_usage a =
    (sum_values (memory_usage a)
     * (inject_Z (Z.of_nat (line_count f - 1)) / inject_Z (Z.of_nat sample_size)))%Q.
Proof.
  intros Hf. unfold analyze_sample, try_except, bind, logger, open_file, lift, ret, raise.
  cbn [fs]. rewrite Hf.
  destruct (pd_read_csv_nrows f sample_size) as [df|e] eqn:Hread; [|done].
  cbn [fs]. rewrite Hf. unfold true_div.
  destruct sample_size as [|n]; [done|]. intros [= <- _].
  cbn [estimated_total_rows analysis_sample_size estimated_memory_usage memory_usage].
  split; [lia|]. split; [done|]. split; [|done].
  unfold pd_read_csv_nrows in Hread. destruct (header f); [done|].
  destruct (existsb _ _); [done|]. injection Hread as <-.
  unfold len; cbn [parse_frame index_len]. by rewrite length_take.
Qed.

(** C3, the code at the failing input: a file of six lines (five data rows)
    sampled with [sample_size = 10].  The sample holds the five rows, the row
    estimate is 5, and the memory estimate is the sample's footprint times
    5/10, where the claim has 5/5 = 1. *)
Theorem analyze_sample_small_file (deep_bytes : Series → N) :
  ∃ a, (analyze_sample deep_bytes "prices.csv" 10 (world_with sample_files ∅ [])).1 = Ok a ∧
       analysis_sample_size a = 5 ∧
       estimated_total_rows a = 5 ∧
       estimated_memory_usage a
         = (sum_values (memory_usage a) * (inject_Z 5 / inject_Z 10))%Q ∧
       (inject_Z 5 / inject_Z 10 == 1 # 2)%Q ∧
       ¬ (inject_Z 5 / inject_Z 10 == inject_Z 5 / inject_Z 5)%Q.
Proof.
  destruct (analyze_sample deep_bytes "prices.csv" 10 (world_with sample_files ∅ []))
    as [r w'] eqn:Hrun.
  assert (∃ a, r = Ok a) as [a ->].
  { revert Hrun. unfold analyze_sample, try_except, bind, logger, open_file, lift, ret.
    cbn. intros [= <- _]. by eexists. }
  destruct (analyze_sample_estimates deep_bytes "prices.csv" 10
              (world_with sample_files ∅ []) a w' prices_csv eq_refl Hrun)
    as (_ & Hrows & Hsize & Hmem).
  exists a. split; [done|]. split; [exact Hsize|]. split; [exact Hrows|].
  split; [exact Hmem|]. split; [reflexivity|]. intros H. vm_compute in H. discriminate.
Qed.

(** ** Chunks in memory *)

Lemma load_loop_yield_mem table_name df k first_chunk total_rows w :
  (mem (load_loop table_name (GYield df k) first_chunk total_rows w).2 = mem_holding (mem w) ∧
   ∃ e, (load_loop table_name (GYield df k) first_chunk total_rows w).1 = Raise e) ∨
  ∃ w1 total1, mem w1 = mem_released (mem_holding (mem w)) ∧
    load_loop table_name (GYield df k) first_chunk total_rows w
      = load_loop table_name k false total1 w1.
Proof.
  cbn [load_loop].
  unfold gen_next_chunk, gen_exit, ldr_bind, gc_collect, to_sql, logger, lift.
  unfold on_memory, bind, ret, raise, mem_holding, mem_released.
  cbn [mem db fs log materialize fst snd].
  destruct (optimize_dtypes df) as [chunk|e]; [|left; split; [done|by exists e]].
  cbn [mem db fs log].
  match goal with |- context [db_to_sql ?c ?t ?m ?d] =>
    destruct (db_to_sql c t m d) as [[[]|e] d'] end;
    [|left; split; [done|by exists e]].
  right. eexists _, _. split; [|reflexivity]. done.
Qed.

Lemma referenced_spec g l o : Is_true (referenced g l o) ↔ g = Some o ∨ l = Some o.
Proof. unfold referenced. by rewrite orb_True, !bool_decide_spec. Qed.

Lemma settled_holding m :
  settled m →
  gen_chunk (mem_holding m) = Some (next_obj m) ∧
  ldr_chunk (mem_holding m) = Some (next_obj m) ∧
  live (mem_holding m) = [next_obj m] ∧
  next_obj (mem_holding m) = S (next_obj m) ∧
  peak (mem_holding m) = peak m `max` S (length (live m)) ∧
  length (live m) ≤ 1.
Proof.
  intros [Hl Hg]. unfold mem_holding, materialize.
  cbn [rebind gen_chunk ldr_chunk live next_obj peak].
  rewrite Hl, length_app. cbn [length].
  assert (filter (λ o, referenced (Some (next_obj m)) None o) (live m ++ [next_obj m])
          = [next_obj m]) as ->.
  { rewrite filter_app.
    rewrite (filter_cons_True _ (next_obj m)) by (apply referenced_spec; by left).
    rewrite filter_nil. destruct (gen_chunk m) as [o|].
    - destruct Hg as [-> Ho]. rewrite filter_cons_False; [by rewrite filter_nil|].
      rewrite referenced_spec. intros [[= ?]|[=]]. lia.
    - by rewrite Hg, filter_nil. }
  rewrite filter_cons_True by (apply referenced_spec; by left). rewrite filter_nil.
  repeat split; try done; try lia.
  destruct (gen_chunk m); [destruct Hg as [-> _]|rewrite Hg]; cbn; lia.
Qed.

Lemma settled_released m :
  settled m →
  settled (mem_released (mem_holding m)) ∧
  gen_chunk (mem_released (mem_holding m)) = Some (next_obj m) ∧
  peak (mem_released (mem_holding m)) = peak (mem_holding m).
Proof.
  intros Hs. destruct (settled_holding m Hs) as (Hg & Hl & Hlive & Hn & _).
  unfold mem_released. cbn [rebind gen_chunk ldr_chunk live next_obj peak].
  split; [|done]. rewrite Hg.
  unfold settled, rebind; cbn [gen_chunk ldr_chunk live next_obj]. rewrite Hlive, Hn.
  rewrite !filter_cons_True by (apply referenced_spec; by left). rewrite !filter_nil.
  split; [done|]. split; [done|lia].
Qed.

(** During a load at most two chunks are ever live together. *)
Lemma load_loop_peak_le table_name g first_chunk total_rows w :
  settled (mem w) →
  peak (mem (load_loop table_name g first_chunk total_rows w).2) ≤ peak (mem w) `max` 2.
Proof.
  revert first_chunk total_rows w.
  induction g as [r k IH|df k IH| |e]; intros first_chunk total_rows w Hs.
  - cbn [load_loop]. unfold bind, logger. apply (IH _ _ {| fs := fs w |}), Hs.
  - destruct (load_loop_yield_mem table_name df k first_chunk total_rows w)
      as [[-> _]|(w1 & total1 & Hm & ->)];
      destruct (settled_holding _ Hs) as (_ & _ & _ & _ & Hp & Hlen).
    + lia.
    + destruct (settled_released _ Hs) as (Hs' & _ & Hp').
      rewrite <-Hm in Hs', Hp'. specialize (IH false total1 w1 Hs'). lia.
  - cbn. lia.
  - cbn. lia.
Qed.

(** The high-water mark never goes down. *)
Lemma load_loop_peak_mono table_name g first_chunk total_rows w :
  settled (mem w) →
  peak (mem w) ≤ peak (mem (load_loop table_name g first_chunk total_rows w).2).
Proof.
  revert first_chunk total_rows w.
  induction g as [r k IH|df k IH| |e]; intros first_chunk total_rows w Hs.
  - cbn [load_loop]. unfold bind, logger. apply (IH _ _ {| fs := fs w |}), Hs.
  - destruct (load_loop_yield_mem table_name df k first_chunk total_rows w)
      as [[-> _]|(w1 & total1 & Hm & ->)];
      destruct (settled_holding _ Hs) as (_ & _ & _ & _ & Hp & Hlen).
    + lia.
    + destruct (settled_released _ Hs) as (Hs' & _ & Hp').
      rewrite <-Hm in Hs', Hp'. specialize (IH false total1 w1 Hs'). lia.
  - cbn. lia.
  - cbn. lia.
Qed.

(** Reading a chunk while the generator still names the one before it puts
    two chunks in memory. *)
Lemma load_loop_next_chunk_overlaps table_name g first_chunk total_rows w :
  settled (mem w) → is_Some (gen_chunk (mem w)) → yields g ≠ [] →
  2 ≤ peak (mem (load_loop table_name g first_chunk total_rows w).2).
Proof.
  revert first_chunk total_rows w.
  induction g as [r k IH|df k IH| |e]; intros first_chunk total_rows w Hs Hg Hy; try done.
  - cbn [load_loop]. unfold bind, logger. by apply (IH _ _ {| fs := fs w |}).
  - assert (2 ≤ peak (mem_holding (mem w))) as Hp.
    { destruct (settled_holding _ Hs) as (_ & _ & _ & _ & -> & _).
      destruct Hs as [_ Hs]. destruct Hg as [o Ho]. rewrite Ho in Hs.
      destruct Hs as [-> _]. cbn. lia. }
    destruct (load_loop_yield_mem table_name df k first_chunk total_rows w)
      as [[-> _]|(w1 & total1 & Hm & ->)]; [done|].
    destruct (settled_released _ Hs) as (Hs' & _ & Hp').
    rewrite <-Hm in Hs', Hp'.
    pose proof (load_loop_peak_mono table_name k false total1 w1 Hs'). lia.
Qed.

(** A load that completes after reading two chunks or more had two chunks
    in memory together. *)
Lemma load_loop_two_chunks_live table_name g first_chunk total_rows w n :
  settled (mem w) →
  (load_loop table_name g first_chunk total_rows w).1 = Ok n →
  2 ≤ length (yields g) →
  2 ≤ peak (mem (load_loop table_name g first_chunk total_rows w).2).
Proof.
  revert first_chunk total_rows w.
  induction g as [r k IH|df k IH| |e]; intros first_chunk total_rows w Hs Hok Hy;
    try (cbn in Hy; lia).
  - cbn [load_loop] in *. unfold bind, logger in *. by apply (IH _ _ {| fs := fs w |}).
  - destruct (load_loop_yield_mem table_name df k first_chunk total_rows w)
      as [[_ [e He]]|(w1 & total1 & Hm & Heq)]; [congruence|].
    rewrite Heq. destruct (settled_released _ Hs) as (Hs' & Hg' & _).
    rewrite <-Hm in Hs', Hg'.
    apply load_loop_next_chunk_overlaps; [done|by rewrite Hg'|].
    cbn in Hy. destruct (yields k); [cbn in Hy; lia|done].
Qed.

(** C9, the code at the failing input: a load of five rows in chunks of
    two.  When the reader builds the second chunk (object 1) the first
    (object 0) is still named by the generator's [chunk], although the loader
    has deleted its own reference and collected garbage: two chunks are live
    together, and the high-water mark of the whole load is 2. *)
Theorem save_to_db_chunked_two_chunks_live :
  let out := save_to_db_chunked analyzer2 "ticks.csv" "t" Replace
               (world_with sample_files ∅ []) in
  let after_first := mem_released (mem_holding fresh_memory) in
  out.1 = Ok PyNone ∧
  gen_chunk after_first = Some 0 ∧ ldr_chunk after_first = None ∧
  live after_first = [0] ∧
  live (materialize after_first).2 = [0; 1] ∧
  peak (mem out.2) = 2.
Proof. vm_compute. repeat split. Qed.

(** * Further facts *)

(** ** The type optimizer on the other columns *)

(** X1.  In a chunk the optimizer returns for, a text column is turned into
    a categorical one exactly when twice its number of distinct non-missing
    values is below the number of rows (distinct ratio < 0.5), and is left as
    text otherwise; its name and values are kept.  A chunk with a text column
    that is returned for has at least one row. *)
Theorem optimize_dtypes_text_column (df df' : DataFrame) (i : nat) (s : Series) :
  optimize_dtypes df = Ok df' →
  series df !! i = Some s → sdtype s = Object →
  0 < len df ∧
  ∃ s', series df' !! i = Some s' ∧ sname s' = sname s ∧ svalues s' = svalues s ∧
        (sdtype s' = Category ↔ 2 * nunique (svalues s) < len df) ∧
        (sdtype s' = Object ↔ len df ≤ 2 * nunique (svalues s)).
Proof.
  intros Hopt Hs Hdt. unfold optimize_dtypes in Hopt.
  destruct (optimize_columns (len df) (series df)) as [cols|] eqn:Hc; [|done].
  injection Hopt as <-. cbn [series].
  apply optimize_columns_lookup in Hc as [_ Hlk].
  destruct (Hlk i s Hs) as (s' & Hs' & Hcol).
  destruct (optimize_column_keeps _ _ _ Hcol) as [Hn Hv].
  unfold optimize_column in Hcol. rewrite Hdt in Hcol.
  destruct (len df) as [|n] eqn:Hlen; [done|]. split; [lia|].
  exists s'. split; [done|]. split; [done|]. split; [done|].
  destruct (2 * nunique (svalues s) <? S n) eqn:Hlt; injection Hcol as <-.
  - apply Nat.ltb_lt in Hlt. cbn [astype sdtype]. split; split; try done; lia.
  - apply Nat.ltb_ge in Hlt. rewrite Hdt. split; split; try done; lia.
Qed.

Lemma optimize_dtypes_text_column_witness :
  ∃ df' s', optimize_dtypes (parse_frame (header ticks_csv) (data_rows ticks_csv)) = Ok df' ∧
            series df' !! 0 = Some s' ∧ sdtype s' = Object.
Proof.
  destruct (optimize_dtypes (parse_frame (header ticks_csv) (data_rows ticks_csv)))
    as [df'|e] eqn:Hopt; [|vm_compute in Hopt; discriminate].
  destruct (optimize_dtypes_text_column _ df' 0
              {| sname := "Ticker"; sdtype := Object;
                 svalues := [CText "AAA"; CText "AAA"; CText "BBB"; CText "AAA"; CText "CCC"] |}
              Hopt eq_refl eq_refl) as (_ & s' & Hs' & _ & _ & _ & Hobj).
  exists df', s'. split; [done|]. split; [exact Hs'|].
  apply Hobj. vm_compute. lia.
Defined.

(** X2.  The optimizer leaves every column that is neither text nor a wide
    integer (floats, categoricals, already narrowed integers) exactly as it
    is. *)
Theorem optimize_dtypes_other_column (df df' : DataFrame) (i : nat) (s : Series) :
  optimize_dtypes df = Ok df' →
  series df !! i = Some s → sdtype s ≠ Object → sdtype s ≠ Int64 →
  series df' !! i = Some s.
Proof.
  intros Hopt Hs Ho Hi. unfold optimize_dtypes in Hopt.
  destruct (optimize_columns (len df) (series df)) as [cols|] eqn:Hc; [|done].
  injection Hopt as <-. cbn [series].
  apply optimize_columns_lookup in Hc as [_ Hlk].
  destruct (Hlk i s Hs) as (s' & Hs' & Hcol).
  unfold optimize_column in Hcol.
  destruct (sdtype s); try done; by injection Hcol as <-.
Qed.

Lemma optimize_dtypes_other_column_witness :
  ∃ df', optimize_dtypes
           {| index_len := 1;
              series := [ {| sname := "x"; sdtype := Float64; svalues := [CEmpty] |} ] |}
           = Ok df' ∧
         series df' !! 0 = Some {| sname := "x"; sdtype := Float64; svalues := [CEmpty] |}.
Proof.
  eexists. split; [reflexivity|].
  eapply (optimize_dtypes_other_column
            {| index_len := 1;
               series := [ {| sname := "x"; sdtype := Float64; svalues := [CEmpty] |} ] |});
    [reflexivity|reflexivity|discriminate|discriminate].
Defined.

Lemma optimize_column_again n s s' :
  optimize_column n s = Ok s' → optimize_column n s' = Ok s'.
Proof.
  unfold optimize_column. intros H.
  destruct (sdtype s) eqn:Hdt.
  - destruct n as [|n]; [done|].
    destruct (2 * nunique (svalues s) <? S n) eqn:Hlt; injection H as <-; [done|].
    by rewrite Hdt, Hlt.
  - destruct (ge_bound _ (-128) && _) eqn:H8; [by injection H as <-|].
    destruct (ge_bound _ (-32768) && _) eqn:H16; [by injection H as <-|].
    destruct (ge_bound _ (-2147483648) && _) eqn:H32; [by injection H as <-|].
    injection H as <-. by rewrite Hdt, H8, H16, H32.
  - injection H as <-. by rewrite Hdt.
  - injection H as <-. by rewrite Hdt.
  - injection H as <-. by rewrite Hdt.
  - injection H as <-. by rewrite Hdt.
  - injection H as <-. by rewrite Hdt.
Qed.

Lemma optimize_columns_again n cols cols' :
  optimize_columns n cols = Ok cols' → optimize_columns n cols' = Ok cols'.
Proof.
  revert cols'. induction cols as [|c cols IH]; intros cols' H.
  - by injection H as <-.
  - cbn in H. destruct (optimize_column n c) as [c'|] eqn:Hc; [|done].
    destruct (optimize_columns n cols) as [r|] eqn:Hr; [|done].
    injection H as <-. cbn. by rewrite (optimize_column_again _ _ _ Hc), (IH r eq_refl).
Qed.

(** X3.  Optimizing twice is the same as optimizing once: the optimizer
    returns for the chunk it produced and gives it back unchanged. *)
Theorem optimize_dtypes_idempotent (df df' : DataFrame) :
  optimize_dtypes df = Ok df' → optimize_dtypes df' = Ok df'.
Proof.
  unfold optimize_dtypes. intros H.
  destruct (optimize_columns (len df) (series df)) as [cols|] eqn:Hc; [|done].
  injection H as <-. unfold len in *. cbn [index_len series].
  by rewrite (optimize_columns_again _ _ _ Hc).
Qed.

Lemma optimize_dtypes_idempotent_witness :
  ∃ df', optimize_dtypes boundary_frame = Ok df' ∧ optimize_dtypes df' = Ok df'.
Proof.
  eexists. split; [reflexivity|].
  by apply (optimize_dtypes_idempotent boundary_frame).
Defined.

(** ** Loads that fail before the first write *)

Lemma save_to_db_chunked_start_failure self file_path table_name if_exists w r e :
  read_csv_chunked self (fs w) file_path = GLog r (GRaise e) →
  save_to_db_chunked self file_path table_name if_exists w =
    (Raise e, {| fs := fs w; db := db w; log := log w ++ [r; ErrorSaving e]; mem := mem w |}).
Proof.
  intros Hg. unfold save_to_db_chunked, try_except. rewrite Hg.
  cbn [load_loop]. unfold bind, logger, raise, ret. cbn [fs db log mem].
  by rewrite <-app_assoc.
Qed.

(** X4.  A load from a path that cannot be opened raises [IOError]; the
    error is logged by the reader and again by the loader, and the store is
    left exactly as it was: no call reaches it and an existing table of that
    name keeps its rows. *)
Theorem save_to_db_chunked_missing_file (self : DataAnalyzer)
    (file_path table_name : string) (if_exists : IfExists) (w : World) :
  fs w !! file_path = None →
  save_to_db_chunked self file_path table_name if_exists w =
    (Raise IOError,
     {| fs := fs w; db := db w;
        log := log w ++ [ErrorReadingCsv IOError; ErrorSaving IOError];
        mem := mem w |}).
Proof.
  intros Hf. apply save_to_db_chunked_start_failure.
  unfold read_csv_chunked. by rewrite Hf.
Qed.

Lemma save_to_db_chunked_missing_file_witness :
  (save_to_db_chunked analyzer2 "nowhere.csv" "t" Replace
     (world_with sample_files {[ "t" := old_table ]} [])).1 = Raise IOError.
Proof.
  by rewrite (save_to_db_chunked_missing_file analyzer2 "nowhere.csv" "t" Replace
                (world_with sample_files {[ "t" := old_table ]} []) eq_refl).
Defined.

(** X5.  With a chunk size of 0 a load of an existing file raises
    [ZeroDivisionError] from the progress computation, before pandas is asked
    for anything: nothing but the two error records is logged and the store
    is left exactly as it was. *)
Theorem save_to_db_chunked_zero_chunk_size (self : DataAnalyzer)
    (file_path table_name : string) (if_exists : IfExists) (w : World) (f : CsvFile) :
  fs w !! file_path = Some f → chunk_size self = 0 →
  save_to_db_chunked self file_path table_name if_exists w =
    (Raise ZeroDivisionError,
     {| fs := fs w; db := db w;
        log := log w ++ [ErrorReadingCsv ZeroDivisionError; ErrorSaving ZeroDivisionError];
        mem := mem w |}).
Proof.
  intros Hf Hn. apply save_to_db_chunked_start_failure.
  unfold read_csv_chunked. by rewrite Hf, Hn.
Qed.

Lemma save_to_db_chunked_zero_chunk_size_witness :
  (save_to_db_chunked {| chunk_size := 0 |} "ticks.csv" "t" Replace
     (world_with sample_files {[ "t" := old_table ]} [])).1 = Raise ZeroDivisionError.
Proof.
  by rewrite (save_to_db_chunked_zero_chunk_size {| chunk_size := 0 |} "ticks.csv" "t"
                Replace (world_with sample_files {[ "t" := old_table ]} [])
                ticks_csv eq_refl eq_refl).
Defined.

Lemma optimize_dtypes_empty_parse hdr :
  hdr ≠ [] → optimize_dtypes (parse_frame hdr []) = Raise ZeroDivisionError.
Proof.
  intros Hh. destruct hdr as [|h hdr]; [done|].
  eapply (optimize_dtypes_zero_rows_object _
            {| sname := h; sdtype := Object; svalues := [] |}); [done| |done].
  cbn. left.
Qed.

(** X6.  A load of a file that has a header and no data row (blank lines
    apart) raises [ZeroDivisionError] in the optimizer, on the one empty
    chunk the reader yields, before any write: no call reaches the store, so
    an existing table of that name is not replaced and keeps its rows. *)
Theorem save_to_db_chunked_no_data_rows (self : DataAnalyzer)
    (file_path table_name : string) (if_exists : IfExists) (w : World) (f : CsvFile) :
  fs w !! file_path = Some f → header f ≠ [] → data_rows f = [] →
  0 < chunk_size self →
  ∃ w', save_to_db_chunked self file_path table_name if_exists w
          = (Raise ZeroDivisionError, w') ∧
        fs w' = fs w ∧ db w' = db w ∧
        log w' = log w ++ [InfoProcessing file_path (chunk_size self);
                           ErrorSaving ZeroDivisionError].
Proof.
  intros Hf Hh Hrows Hn.
  unfold save_to_db_chunked, try_except.
  rewrite (read_csv_chunked_script _ _ _ f Hf Hh Hn), Hrows.
  cbn [batches pull length yield_frames existsb logged load_loop].
  unfold gen_next_chunk, gen_exit, ldr_bind, gc_collect, to_sql, logger, lift.
  unfold on_memory, bind, ret, raise. cbn [mem db fs log materialize fst snd].
  rewrite (optimize_dtypes_empty_parse _ Hh). cbn [mem db fs log].
  eexists. split; [reflexivity|]. cbn [fs db log]. by rewrite <-app_assoc.
Qed.

Lemma save_to_db_chunked_no_data_rows_witness :
  ∃ w', save_to_db_chunked analyzer2 "empty.csv" "t" Replace
          (world_with sample_files {[ "t" := old_table ]} [])
          = (Raise ZeroDivisionError, w') ∧
        tables (db w') !! "t" = Some old_table.
Proof.
  destruct (save_to_db_chunked_no_data_rows analyzer2 "empty.csv" "t" Replace
              (world_with sample_files {[ "t" := old_table ]} []) header_only_csv
              eq_refl ltac:(discriminate) eq_refl ltac:(cbn; lia))
    as (w' & Hsave & _ & Hdb & _).
  exists w'. split; [exact Hsave|]. by rewrite Hdb.
Defined.

(** ** Loads in sequence, and what a load leaves alone *)

Lemma save_to_db_chunked_fs self file_path table_name if_exists w :
  fs (save_to_db_chunked self file_path table_name if_exists w).2 = fs w.
Proof.
  pose proof (load_loop_store table_name (read_csv_chunked self (fs w) file_path) true 0 w)
    as (Hfs & _).
  unfold save_to_db_chunked, try_except, bind, ret, logger, raise.
  by destruct (load_loop _ _ true 0 w) as [[n|e] w1].
Qed.



Lemma db_to_sql_other chunk table_name mode d other :
  other ≠ table_name →
  tables (db_to_sql chunk table_name mode d).2 !! other = tables d !! other.
Proof.
  intros Hne. unfold db_to_sql.
  destruct (faults d) as [|[] fl].
  - destruct (insert_frame chunk mode (tables d !! table_name)); cbn [snd tables];
      [by rewrite lookup_insert_ne|done].
  - cbn [snd tables]. unfold after_failure.
    destruct mode, (on_failure d); try done.
    + by rewrite lookup_delete_ne.
    + by rewrite lookup_insert_ne.
  - destruct (insert_frame chunk mode (tables d !! table_name)); cbn [snd tables];
      [by rewrite lookup_insert_ne|done].
Qed.

Lemma write_chunks_other table_name chunks stop first_chunk total_rows d other :
  other ≠ table_name →
  tables (write_chunks table_name chunks stop first_chunk total_rows d).2 !! other
    = tables d !! other.
Proof.
  intros Hne. revert first_chunk total_rows d.
  induction chunks as [|df chunks IH]; intros first_chunk total_rows d; [done|].
  cbn [write_chunks]. destruct (optimize_dtypes df) as [chunk|e]; [|done].
  pose proof (db_to_sql_other chunk table_name
                (if first_chunk then Replace else Append) d other Hne) as Hsql.
  destruct (db_to_sql chunk table_name _ d) as [[u|e] d1]; cbn [snd] in *; [|done].
  by rewrite IH.
Qed.

(** X8.  However a load ends, it leaves every other table of the store and
    the file system as they were. *)
Theorem save_to_db_chunked_other_tables (self : DataAnalyzer)
    (file_path table_name other : string) (if_exists : IfExists) (w : World) :
  other ≠ table_name →
  tables (db (save_to_db_chunked self file_path table_name if_exists w).2) !! other
    = tables (db w) !! other ∧
  fs (save_to_db_chunked self file_path table_name if_exists w).2 = fs w.
Proof.
  intros Hne. split; [|apply save_to_db_chunked_fs].
  rewrite save_to_db_chunked_db.
  pose proof (load_loop_store table_name (read_csv_chunked self (fs w) file_path) true 0 w)
    as (_ & Hproj & _).
  pose proof (write_chunks_other table_name
                (yields (read_csv_chunked self (fs w) file_path))
                (ending (read_csv_chunked self (fs w) file_path)) true 0 (db w) other Hne)
    as Hother.
  rewrite <-Hproj in Hother. exact Hother.
Qed.

Lemma save_to_db_chunked_other_tables_witness :
  tables (db (save_to_db_chunked analyzer2 "ticks.csv" "t" Replace
                (world_with sample_files {[ "old" := old_table ]} [false; true])).2)
    !! "old" = Some old_table.
Proof.
  destruct (save_to_db_chunked_other_tables analyzer2 "ticks.csv" "t" "old" Replace
              (world_with sample_files {[ "old" := old_table ]} [false; true])
              ltac:(discriminate)) as [-> _].
  reflexivity.
Defined.

Lemma write_chunks_calls table_name chunks stop first_chunk total_rows d :
  ∃ new,
    journal (write_chunks table_name chunks stop first_chunk total_rows d).2
      = journal d ++ new ∧
    length new ≤ length chunks ∧
    (∀ i e, new !! i = Some e → ∃ c, chunks !! i = Some c ∧ w_rows e = len c) ∧
    (∀ i e, new !! i = Some e → w_ok e = false →
       S i = length new ∧
       ∃ err, (write_chunks table_name chunks stop first_chunk total_rows d).1 = Raise err).
Proof.
  revert first_chunk total_rows d.
  induction chunks as [|df chunks IH]; intros first_chunk total_rows d.
  { exists []. cbn. rewrite app_nil_r. repeat split; try done; intros i e Hi;
      by rewrite lookup_nil in Hi. }
  cbn [write_chunks]. destruct (optimize_dtypes df) as [chunk|err] eqn:Hopt.
  2:{ exists []. cbn. rewrite app_nil_r. repeat split; try done; try lia; intros i e Hi;
        by rewrite lookup_nil in Hi. }
  destruct (optimize_dtypes_keeps _ _ Hopt) as (Hlen & _).
  destruct (db_to_sql chunk table_name _ d) as [[u|err] d1] eqn:Hsql.
  - apply db_to_sql_ok in Hsql as (_ & _ & Hj & _).
    destruct (IH false (total_rows + len chunk) d1) as (new & Hnew & Hle & Hrows & Hbad).
    eexists (_ :: new). rewrite Hnew, Hj, <-app_assoc. split; [done|].
    split; [cbn; lia|]. split.
    + intros [|i] e Hi; [|by apply Hrows]. injection Hi as <-. by exists df.
    + intros [|i] e Hi Hok; [by injection Hi as <-|].
      destruct (Hbad i e Hi Hok) as [Hlast Herr]. split; [cbn; lia|done].
  - exists [load_entry table_name (if first_chunk then Replace else Append) false chunk].
    split.
    { unfold db_to_sql in Hsql.
      destruct (faults d) as [|[] fl];
        try destruct (insert_frame chunk _ (tables d !! table_name));
        try done; by injection Hsql as <- <-. }
    split; [cbn; lia|]. split.
    + intros [|i] e Hi; [|done]. injection Hi as <-. by exists df.
    + intros [|i] e Hi _; [|done]. split; [done|]. by exists err.
Qed.

(** X9.  However a load ends, the store receives at most one [to_sql] call
    per chunk read, in the order of the chunks and each with its chunk's row
    count; a rejected call is the last one (nothing is retried and no later
    chunk is written), and the load then raises. *)
Theorem save_to_db_chunked_calls (self : DataAnalyzer)
    (file_path table_name : string) (if_exists : IfExists) (w : World) :
  let out := save_to_db_chunked self file_path table_name if_exists w in
  let chunks := yields (read_csv_chunked self (fs w) file_path) in
  ∃ new,
    journal (db out.2) = journal (db w) ++ new ∧
    length new ≤ length chunks ∧
    (∀ i e, new !! i = Some e → ∃ c, chunks !! i = Some c ∧ w_rows e = len c) ∧
    (∀ i e, new !! i = Some e → w_ok e = false →
       S i = length new ∧ ∃ err, out.1 = Raise err).
Proof.
  intros out chunks. subst out. rewrite save_to_db_chunked_db.
  pose proof (load_loop_store table_name (read_csv_chunked self (fs w) file_path) true 0 w)
    as (_ & Hproj & _).
  destruct (write_chunks_calls table_name chunks
              (ending (read_csv_chunked self (fs w) file_path)) true 0 (db w))
    as (new & Hnew & Hle & Hrows & Hbad).
  fold chunks in Hproj. rewrite <-Hproj in Hnew, Hbad. cbn [fst snd] in Hnew, Hbad.
  exists new. split; [done|]. split; [done|]. split; [done|].
  intros i e Hi Hok. destruct (Hbad i e Hi Hok) as [Hlast [err Herr]].
  split; [done|]. exists err.
  unfold save_to_db_chunked, try_except, bind, ret, logger, raise.
  destruct (load_loop _ _ true 0 w) as [[n|e'] w1]; cbn in *; congruence.
Qed.

(** ** Memory over a whole load *)

Lemma save_to_db_chunked_mem self file_path table_name if_exists w :
  mem (save_to_db_chunked self file_path table_name if_exists w).2
    = mem (load_loop table_name (read_csv_chunked self (fs w) file_path) true 0 w).2.
Proof.
  unfold save_to_db_chunked, try_except, bind, ret, logger, raise.
  by destruct (load_loop _ _ true 0 w) as [[n|e] w1].
Qed.

Lemma load_loop_ok_mem table_name g first_chunk total_rows w n :
  settled (mem w) →
  (load_loop table_name g first_chunk total_rows w).1 = Ok n →
  live (mem (load_loop table_name g first_chunk total_rows w).2) = [] ∧
  gen_chunk (mem (load_loop table_name g first_chunk total_rows w).2) = None ∧
  ldr_chunk (mem (load_loop table_name g first_chunk total_rows w).2) = None.
Proof.
  revert first_chunk total_rows w.
  induction g as [r k IH|df k IH| |e]; intros first_chunk total_rows w Hs Hok.
  - cbn [load_loop] in *. unfold bind, logger in *. by apply (IH _ _ {| fs := fs w |}).
  - destruct (load_loop_yield_mem table_name df k first_chunk total_rows w)
      as [[_ [e He]]|(w1 & total1 & Hm & Heq)]; [congruence|].
    rewrite Heq in *. destruct (settled_released _ Hs) as (Hs' & _).
    rewrite <-Hm in Hs'. by apply IH.
  - cbn. destruct Hs as [Hl Hg]. rewrite Hl. split; [|done].
    destruct (gen_chunk (mem w)) as [o|]; [destruct Hg as [-> _]|by rewrite Hg].
    rewrite filter_cons_False; [by rewrite filter_nil|].
    by rewrite referenced_spec; intros [|].
  - done.
Qed.

(** X12.  During a load that starts with no chunk in memory, however it
    ends, at most two chunks are alive at any time, so the memory held is
    bounded by two chunks whatever the size of the file; and when the load
    completes no chunk is left alive. *)
Theorem save_to_db_chunked_memory (self : DataAnalyzer)
    (file_path table_name : string) (if_exists : IfExists) (w : World) :
  settled (mem w) →
  let out := save_to_db_chunked self file_path table_name if_exists w in
  peak (mem out.2) ≤ peak (mem w) `max` 2 ∧
  (∀ v, out.1 = Ok v →
     live (mem out.2) = [] ∧ gen_chunk (mem out.2) = None ∧ ldr_chunk (mem out.2) = None).
Proof.
  intros Hs out. subst out. rewrite save_to_db_chunked_mem.
  split; [by apply load_loop_peak_le|].
  intros v Hv.
  destruct (load_loop table_name (read_csv_chunked self (fs w) file_path) true 0 w)
    as [[n|e] w1] eqn:Hloop.
  - pose proof (load_loop_ok_mem table_name (read_csv_chunked self (fs w) file_path)
                  true 0 w n Hs) as H.
    rewrite Hloop in H. by apply H.
  - unfold save_to_db_chunked, try_except, bind, ret, logger, raise in Hv.
    by rewrite Hloop in Hv.
Qed.

Lemma save_to_db_chunked_memory_witness :
  peak (mem (save_to_db_chunked analyzer2 "ticks.csv" "t" Replace
               (world_with sample_files ∅ [true])).2) ≤ 2.
Proof.
  assert (settled (mem (world_with sample_files ∅ [true]))) as Hs by done.
  destruct (save_to_db_chunked_memory analyzer2 "ticks.csv" "t" Replace
              (world_with sample_files ∅ [true]) Hs) as [Hp _].
  exact Hp.
Defined.

(** ** The sample profiler, in every outcome *)

(** X13.  Profiling a file never writes: whether it returns or raises, the
    files, the store and the memory are as before, and the log grows by
    exactly two records, the announcement and then either the completion
    record or the error record of the exception raised. *)
Theorem analyze_sample_read_only (deep_bytes : Series → N)
    (file_path : string) (sample_size : nat) (w : World) :
  let out := analyze_sample deep_bytes file_path sample_size w in
  fs out.2 = fs w ∧ db out.2 = db w ∧ mem out.2 = mem w ∧
  ((∃ a, out.1 = Ok a ∧
         log out.2 = log w ++ [InfoAnalyzing sample_size file_path; InfoSampleComplete]) ∨
   (∃ e, out.1 = Raise e ∧
         log out.2 = log w ++ [InfoAnalyzing sample_size file_path; ErrorAnalyzing e])).
Proof.
  unfold analyze_sample, try_except, bind, logger, open_file, lift, ret, raise.
  cbn [fs db log mem fst snd].
  destruct (fs w !! file_path) as [f|] eqn:Hf.
  2:{ cbn [fs db log mem fst snd]. repeat split; try done.
      right. eexists. split; [done|]. by rewrite <-app_assoc. }
  destruct (pd_read_csv_nrows f sample_size) as [df|e].
  2:{ cbn [fs db log mem fst snd]. repeat split; try done.
      right. eexists. split; [done|]. by rewrite <-app_assoc. }
  cbn [fs db log mem fst snd]. rewrite Hf.
  destruct (true_div (line_count f - 1) sample_size) as [q|e].
  - cbn [fs db log mem fst snd]. repeat split; try done.
    left. eexists. split; [done|]. by rewrite <-app_assoc.
  - cbn [fs db log mem fst snd]. repeat split; try done.
    right. eexists. split; [done|]. by rewrite <-app_assoc.
Qed.




(** X15.  Asking for a sample of zero rows fails: on a readable file with a
    header, [sample_size = 0] raises ZeroDivisionError (the scaling to the
    whole file divides by the requested size) after logging the
    announcement, and the error is logged. *)
Theorem analyze_sample_zero_sample_size (deep_bytes : Series → N)
    (file_path : string) (w : World) (f : CsvFile) :
  fs w !! file_path = Some f →
  header f ≠ [] →
  let out := analyze_sample deep_bytes file_path 0 w in
  out.1 = Raise ZeroDivisionError ∧
  log out.2 = log w ++ [InfoAnalyzing 0 file_path; ErrorAnalyzing ZeroDivisionError].
Proof.
  intros Hf Hh.
  unfold analyze_sample, try_except, bind, logger, open_file, lift, ret, raise.
  cbn [fs db log mem fst snd]. rewrite Hf.
  unfold pd_read_csv_nrows. destruct (header f) as [|h hdr]; [done|].
  rewrite take_0. cbn [existsb]. cbn [fs db log mem fst snd]. rewrite Hf.
  unfold true_div. cbn [fs db log mem fst snd]. split; [done|].
  cbn [fs db log mem fst snd]. by rewrite <-app_assoc.
Qed.

Lemma analyze_sample_zero_sample_size_witness :
  (analyze_sample (λ _, 0%N) "prices.csv" 0 (world_with sample_files ∅ [])).1
    = Raise ZeroDivisionError.
Proof.
  assert (header prices_csv ≠ []) as Hh by done.
  exact (proj1 (analyze_sample_zero_sample_size (λ _, 0%N) "prices.csv"
                  (world_with sample_files ∅ []) prices_csv eq_refl Hh)).
Defined.

(** ** What a profile holds *)






(** ** Pages of a query *)

(** X17.  A paged query whose statement the store evaluates to r rows comes
    in ceil(r / n) pages when r is positive: every page but the last holds
    exactly n rows and no page is empty; a statement that selects no rows
    comes as one page without rows rather than as no page.  The store, the
    files and the memory are as before the call. *)
Theorem query_data_page_count (execute : string → gmap string Table → result ResultSet)
    (query : string) (n : nat) (w : World) (rs : ResultSet) :
  0 < n →
  execute query (tables (db w)) = Ok rs →
  let out := query_data execute query (Some n) w in
  db out.2 = db w ∧ fs out.2 = fs w ∧ mem out.2 = mem w ∧
  ∃ pages, out.1 = Ok (Paged pages) ∧
    (rs_rows rs = [] → pages = [{| rs_columns := rs_columns rs; rs_rows := [] |}]) ∧
    (rs_rows rs ≠ [] →
       length pages = ceil_div (length (rs_rows rs)) n ∧
       ∀ i p, pages !! i = Some p →
         1 ≤ length (rs_rows p) ≤ n ∧
         (S i < length pages → length (rs_rows p) = n) ∧
         rs_rows p = take n (drop (i * n) (rs_rows rs))).
Proof.
  intros Hn He. destruct n as [|n]; [lia|].
  unfold query_data, read_sql_query, try_except, bind, logger, raise.
  cbn [db fs mem log fst snd]. rewrite He. cbn [db fs mem log fst snd].
  split; [done|]. split; [done|]. split; [done|].
  eexists. split; [done|]. split.
  - intros ->. done.
  - intros Hne. rewrite length_fmap. split; [by apply batches_length|].
    intros i p Hi. apply list_lookup_fmap_Some in Hi as (b & -> & Hb).
    cbn [rs_rows].
    destruct (batches_block_length (S n) (rs_rows rs) i b Hn Hne Hb) as [H1 H2].
    split; [done|]. split; [done|].
    pose proof (batches_lookup (S n) (rs_rows rs) i Hn Hne) as Hl.
    destruct (decide _); congruence.
Qed.

Lemma query_data_page_count_witness :
  ∃ pages, (query_data demo_execute (select_all_query "t") (Some 2)
              (world_with sample_files {[ "t" := old_table ]} [])).1 = Ok (Paged pages) ∧
           length pages = 1.
Proof.
  assert (0 < 2) as Hn by lia.
  assert (demo_execute (select_all_query "t")
            (tables (db (world_with sample_files {[ "t" := old_table ]} [])))
          = Ok {| rs_columns := ["Ticker"];
                  rs_rows := [[CText "OLD"]; [CText "OLDER"]] |}) as He
    by (vm_compute; reflexivity).
  destruct (query_data_page_count demo_execute (select_all_query "t") 2
              (world_with sample_files {[ "t" := old_table ]} []) _ Hn He)
    as (_ & _ & _ & pages & Hp & _ & Hlen).
  exists pages. split; [exact Hp|].
  apply Hlen. discriminate.
Defined.
